(** * QR check-in: scan resolution and scanner lifecycle

    A shallow embedding of the two units of the check-in application that
    carry its logic:

    - the scanner page ([pages/QrScanner.tsx]): [handleScan], the commit of a
      confirmed scan (one activity log, then one location update), and
      [validateAndHandleScan], its caller-side validation;
    - the scanner component ([components/QrScanner.tsx]): the camera
      callback [handleScan], [handleConfirm], [handleCancel], [resetScanner],
      [resetIdleTimer] and the timers they schedule.

    Strings are JavaScript strings: sequences of UTF-16 code units.  The
    document store, the browser timers, [alert] and the two audio cues are
    explicit state; a rejected promise is a thrown value that [try_catch]
    intercepts.  Each handler runs as one atomic transition: the page is
    single-threaded and the component suspends decoding ([scanning = false])
    for the whole span of a scan cycle.

    Left out: rendering, console output, the camera permission probe and the
    unmount cleanup of the mount effect, and the loading of the activity
    list.  The page's selections ([scanType], [selectedActivityId]) are part
    of the state and arbitrary in every general statement. *)

From Stdlib Require Import NArith List String Ascii Bool Lia.
From stdpp Require Import base option list gmap.
Import ListNotations.

Local Open Scope N_scope.

(** ** JavaScript strings *)

(** A string is its sequence of UTF-16 code units. *)
Abbreviation jsstring := (list N).

(** A literal whose characters are all ASCII. *)
Definition lit (s : string) : jsstring :=
  map N_of_ascii (list_ascii_of_string s).

(** [!s] is true exactly for the empty string. *)
Definition truthy (s : jsstring) : bool :=
  match s with [] => false | _ :: _ => true end.

(** [a === b] on strings. *)
Definition str_eq (a b : jsstring) : bool := bool_decide (a = b).

(** [a === b] where either side may be [null] or [undefined] (both are
    [None]; the code never compares [null] with [undefined]). *)
Definition opt_str_eq (a b : option jsstring) : bool := bool_decide (a = b).

(** [x || null] for a string or [undefined]: the empty string is falsy. *)
Definition or_null (x : option jsstring) : option jsstring :=
  match x with
  | Some s => if truthy s then Some s else None
  | None => None
  end.

(** ECMAScript WhiteSpace and LineTerminator code units, the set stripped by
    [String.prototype.trim]. *)
Definition is_white_space (c : N) : bool :=
  (c =? 0x0009) || (c =? 0x000A) || (c =? 0x000B) || (c =? 0x000C) ||
  (c =? 0x000D) || (c =? 0x0020) || (c =? 0x00A0) || (c =? 0x1680) ||
  ((0x2000 <=? c) && (c <=? 0x200A)) ||
  (c =? 0x2028) || (c =? 0x2029) || (c =? 0x202F) || (c =? 0x205F) ||
  (c =? 0x3000) || (c =? 0xFEFF).

Fixpoint trimStart (s : jsstring) : jsstring :=
  match s with
  | c :: s' => if is_white_space c then trimStart s' else s
  | [] => []
  end.

Definition trimEnd (s : jsstring) : jsstring := rev (trimStart (rev s)).

(** [s.trim()] *)
Definition trim (s : jsstring) : jsstring := trimEnd (trimStart s).

(** [hay.includes(needle)] *)
Fixpoint is_prefix (p s : jsstring) : bool :=
  match p, s with
  | [], _ => true
  | a :: p', b :: s' => (a =? b) && is_prefix p' s'
  | _ :: _, [] => false
  end.

Fixpoint includes (hay needle : jsstring) : bool :=
  is_prefix needle hay ||
  match hay with
  | [] => false
  | _ :: hay' => includes hay' needle
  end.

(** ** Data model ([types]) *)

Module Activity.
Record t := mk { id : jsstring; name : jsstring; eventId : jsstring }.
End Activity.

Module Participant.
Record t := mk {
  id : jsstring;
  name : jsstring;
  qrCode : jsstring;
  currentActivityId : option jsstring
}.
End Participant.

Inductive LogType := departure | return_ | change.

Module ActivityLog.
Record t := mk {
  eventId : jsstring;
  participantId : jsstring;
  activityId : option jsstring;      (* string | null *)
  fromActivityId : option jsstring;  (* field present only on a change *)
  leaderId : jsstring;
  type : LogType
}.
End ActivityLog.

Module User.
Record t := mk { id : jsstring }.
End User.

(** The page's [scanType] state: ['departure' | 'return' | '']. *)
Inductive ScanType := st_departure | st_return | st_unset.

(** ** The external store ([utils/firebase]) *)

(** A participant document as the administrative workflows created it. *)
Record ParticipantDoc := {
  doc_eventId : jsstring;
  doc_id : jsstring;
  doc_name : jsstring;
  doc_qrCode : jsstring
}.

(** Every request the page or the component sends to the store. *)
Inductive StoreCall :=
| call_getParticipantByQrCode (qrCode : jsstring) (eventId : option jsstring)
| call_getParticipantCurrentActivity (participantId : jsstring)
| call_createActivityLog (entry : ActivityLog.t)
| call_updateParticipantLocation
    (eventId participantId : jsstring) (activityId : option jsstring).

(** Modelled from the spec: the hosted document database behind
    [utils/firebase], which is not part of the sources.  It holds the
    participant documents, the activity documents (id to name and event),
    each participant's [currentActivityId] (no entry means [null]) and the
    append-only activity log.  [calls] records every request in order,
    accepted or not.  [faults] is the store's answer to the coming requests:
    [true] rejects the request at the head (the promise rejects and nothing
    is written), [false] or an exhausted list accepts it. *)
Record World := {
  participants : list ParticipantDoc;
  activityDocs : gmap (list N) (list N * list N);
  currentActivityId : gmap (list N) (list N);
  logs : list ActivityLog.t;
  calls : list StoreCall;
  faults : list bool
}.

(** Modelled from the spec: [getCurrentActivity], participant id to
    Activity or none.  The activity is the document that the participant's
    [currentActivityId] points to. *)
Definition currentActivityOf (w : World) (participantId : jsstring)
  : option Activity.t :=
  match currentActivityId w !! participantId with
  | Some aid =>
      match activityDocs w !! aid with
      | Some (nm, ev) => Some (Activity.mk aid nm ev)
      | None => None
      end
  | None => None
  end.

(** Modelled from the spec: [findParticipantByCode], QR payload and event id
    to Participant or not-found, a keyed lookup. *)
Definition participantByQrCode (w : World) (qr : jsstring)
    (ev : option jsstring) : option Participant.t :=
  match find (fun d => str_eq (doc_qrCode d) qr &&
                       opt_str_eq (Some (doc_eventId d)) ev)
             (participants w) with
  | Some d =>
      Some (Participant.mk (doc_id d) (doc_name d) (doc_qrCode d)
              (currentActivityId w !! doc_id d))
  | None => None
  end.

(** ** The browser: timers, alerts, audio *)

(** What a pending [setTimeout] callback does when it fires; one
    constructor per callback written in the component. *)
Inductive TimerAction :=
| t_idle             (* resetIdleTimer: resetScanner() *)
| t_rearm            (* resetScanner: setScanning(true); resetIdleTimer() *)
| t_err_not_found    (* setError(null); resetScanner() *)
| t_err_duplicate    (* setError(null); setScannedParticipant(null);
                        setCurrentActivity(null); resetScanner() *)
| t_err_at_camp      (* setError(null); setScannedParticipant(null);
                        resetScanner() *)
| t_err_processing   (* setError(null); resetScanner() *)
| t_post_confirm     (* resetScanner() *)
| t_err_confirm      (* setError(null); resetScanner() *)
| t_post_cancel.     (* resetScanner() *)

Record Timer := { tid : positive; due : N; action : TimerAction }.

Inductive Sound := success_sound | error_sound.

Record Runtime := {
  now : N;                 (* milliseconds *)
  nextTimer : positive;    (* the handle the next setTimeout returns *)
  pending : list Timer;    (* scheduled and neither fired nor cleared *)
  alerts : list jsstring;
  sounds : list Sound
}.

(** ** Page and component state *)

Record Page := {
  eventId : option jsstring;          (* useParams *)
  user : option User.t;               (* useUser *)
  activities : list Activity.t;
  selectedActivityId : jsstring;
  scanType : ScanType;
  showModal : bool;
  modalMessage : jsstring
}.

Record Comp := {
  scanning : bool;
  scannerKey : N;
  error : option jsstring;
  confirmModalOpen : bool;
  scannedParticipant : option Participant.t;
  currentActivity : option Activity.t;
  idleTimer : option positive         (* idleTimer.current *)
}.

Record Sys := { world : World; rt : Runtime; page : Page; comp : Comp }.

Definition set_world (f : World -> World) (s : Sys) : Sys :=
  {| world := f (world s); rt := rt s; page := page s; comp := comp s |}.
Definition set_rt (f : Runtime -> Runtime) (s : Sys) : Sys :=
  {| world := world s; rt := f (rt s); page := page s; comp := comp s |}.
Definition set_page (f : Page -> Page) (s : Sys) : Sys :=
  {| world := world s; rt := rt s; page := f (page s); comp := comp s |}.
Definition set_comp (f : Comp -> Comp) (s : Sys) : Sys :=
  {| world := world s; rt := rt s; page := page s; comp := f (comp s) |}.

(** ** Effects: state and rejected promises *)

Inductive JsError := rejected (c : StoreCall).

Inductive Res (A : Type) := Ok (a : A) | Throw (e : JsError).
Arguments Ok {A} a.
Arguments Throw {A} e.

Definition M (A : Type) : Type := Sys -> Res A * Sys.

Definition ret {A} (a : A) : M A := fun s => (Ok a, s).

Definition bind {A B} (m : M A) (k : A -> M B) : M B :=
  fun s =>
    match m s with
    | (Ok a, s') => k a s'
    | (Throw e, s') => (Throw e, s')
    end.

(** [try { m } catch (err) { h err }]: what [m] wrote before it threw
    stays written. *)
Definition try_catch {A} (m : M A) (h : JsError -> M A) : M A :=
  fun s =>
    match m s with
    | (Ok a, s') => (Ok a, s')
    | (Throw e, s') => h e s'
    end.

Definition get : M Sys := fun s => (Ok s, s).
Definition modify (f : Sys -> Sys) : M unit := fun s => (Ok tt, f s).

Declare Scope js_scope.
Delimit Scope js_scope with js.
Bind Scope js_scope with M.
Notation "x <- m ; k" := (bind m (fun x => k))
  (at level 20, m at level 100, k at level 200, only parsing) : js_scope.
Notation "m ;; k" := (bind m (fun _ => k))
  (at level 100, k at level 200, only parsing, right associativity)
  : js_scope.
Local Open Scope js_scope.

(** ** Store operations *)

(** The state a request leaves behind, accepted or not: the request is
    recorded and the store's next answer is consumed. *)
Definition requested (c : StoreCall) (s : Sys) : Sys :=
  set_world (fun w =>
    {| participants := participants w; activityDocs := activityDocs w;
       currentActivityId := currentActivityId w; logs := logs w;
       calls := calls w ++ [c]; faults := tl (faults w) |}) s.

(** A request reaches the store and throws when the store's answer is a
    rejection. *)
Definition request (c : StoreCall) : M unit :=
  fun s =>
    match faults (world s) with
    | true :: _ => (Throw (rejected c), requested c s)
    | _ => (Ok tt, requested c s)
    end.

Definition getParticipantByQrCode (qr : jsstring) (ev : option jsstring)
  : M (option Participant.t) :=
  request (call_getParticipantByQrCode qr ev) ;;
  s <- get ;
  ret (participantByQrCode (world s) qr ev).

Definition getParticipantCurrentActivity (participantId : jsstring)
  : M (option Activity.t) :=
  request (call_getParticipantCurrentActivity participantId) ;;
  s <- get ;
  ret (currentActivityOf (world s) participantId).

(** Modelled from the spec: what an accepted [appendActivityLog] writes; the
    log is append-only. *)
Definition append_log (entry : ActivityLog.t) (s : Sys) : Sys :=
  set_world (fun w =>
    {| participants := participants w; activityDocs := activityDocs w;
       currentActivityId := currentActivityId w; logs := logs w ++ [entry];
       calls := calls w; faults := faults w |}) s.

(** Modelled from the spec: what an accepted [setParticipantLocation]
    writes; it overwrites [currentActivityId] with an activity id or none. *)
Definition set_location (participantId : jsstring)
    (activityId : option jsstring) (s : Sys) : Sys :=
  set_world (fun w =>
    {| participants := participants w; activityDocs := activityDocs w;
       currentActivityId :=
         match activityId with
         | Some a => <[participantId := a]> (currentActivityId w)
         | None => delete participantId (currentActivityId w)
         end;
       logs := logs w; calls := calls w; faults := faults w |}) s.

Definition createActivityLog (entry : ActivityLog.t) : M unit :=
  request (call_createActivityLog entry) ;;
  modify (append_log entry).

Definition updateParticipantLocation (ev participantId : jsstring)
    (activityId : option jsstring) : M unit :=
  request (call_updateParticipantLocation ev participantId activityId) ;;
  modify (set_location participantId activityId).

(** [alert(msg)] *)
Definition alert (msg : jsstring) : M unit :=
  modify (set_rt (fun r =>
    {| now := now r; nextTimer := nextTimer r; pending := pending r;
       alerts := alerts r ++ [msg]; sounds := sounds r |})).

(** ** The scanner page ([pages/QrScanner.tsx]) *)

Module QrScannerPage.

(** The warning sign U+26A0 with its variation selector U+FE0F. *)
Definition warning_sign : jsstring := [0x26A0; 0xFE0F].

(** [eventId] when it is truthy ([!eventId] fails). *)
Definition event_of (p : Page) : option jsstring := or_null (eventId p).

(** [user?.id] when it is truthy ([!leaderId] fails). *)
Definition leader_of (p : Page) : option jsstring :=
  or_null (option_map User.id (user p)).

(** [handleScan] of the page: the commit of a confirmed scan.  [scanType]
    cannot be both ['departure'] and ['return'], so the two consecutive
    [if] blocks of the source are the first two branches of one match and
    falling through both is the third. *)
Definition handleScan (participantId : jsstring)
    (activityId : option jsstring) : M bool :=
  s <- get ;
  match event_of (page s) with
  | None => ret false
  | Some ev =>
    try_catch
      (match leader_of (page s) with
       | None =>
           alert (lit "Error: unable to identify scanner.") ;;
           ret false
       | Some leaderId =>
           currentActivity <- getParticipantCurrentActivity participantId ;
           match scanType (page s) with
           | st_departure =>
               match currentActivity with
               | Some ca =>
                   if opt_str_eq (Some (Activity.id ca)) activityId then
                     alert (warning_sign ++
                            lit " Participant is already at this activity.") ;;
                     ret false
                   else
                     createActivityLog
                       (ActivityLog.mk ev participantId activityId
                          (Some (Activity.id ca)) leaderId change) ;;
                     updateParticipantLocation ev participantId activityId ;;
                     ret true
               | None =>
                   createActivityLog
                     (ActivityLog.mk ev participantId activityId
                        None leaderId departure) ;;
                   updateParticipantLocation ev participantId activityId ;;
                   ret true
               end
           | st_return =>
               match currentActivity with
               | None =>
                   alert (warning_sign ++
                          lit " Participant is already not in a class.") ;;
                   ret false
               | Some ca =>
                   createActivityLog
                     (ActivityLog.mk ev participantId (Some (Activity.id ca))
                        None leaderId return_) ;;
                   updateParticipantLocation ev participantId None ;;
                   ret true
               end
           | st_unset => ret true
           end
       end)
      (fun _ => ret false)
  end.

(** [setModalMessage(msg); setShowModal(true)] *)
Definition showMissingSelection (msg : jsstring) : M unit :=
  modify (set_page (fun p =>
    {| eventId := eventId p; user := user p; activities := activities p;
       selectedActivityId := selectedActivityId p; scanType := scanType p;
       showModal := true; modalMessage := msg |})).

(** [validateAndHandleScan]: the component's [onScan].  Its second argument
    is ignored in favour of the page's own selection. *)
Definition validateAndHandleScan (participantId : jsstring)
    (_activityId : option jsstring) : M bool :=
  s <- get ;
  let activityId := or_null (Some (selectedActivityId (page s))) in
  match scanType (page s) with
  | st_unset =>
      showMissingSelection (lit "Please select a scan type before scanning.") ;;
      ret false
  | st_departure =>
      match activityId with
      | None =>
          showMissingSelection
            (lit "Please select an activity for departure.") ;;
          ret false
      | Some _ => handleScan participantId activityId
      end
  | st_return => handleScan participantId activityId
  end.

(** [getParticipantInfo] of the page.  It is defined there but not handed
    to the component, which receives the bare lookup instead (see
    [QrScanner.getParticipantInfo]). *)
Definition getParticipantInfo (participantId : jsstring)
  : M (option Participant.t) :=
  s <- get ;
  match event_of (page s) with
  | None => ret None
  | Some ev =>
      if match scanType (page s) with
         | st_unset => true
         | st_departure => negb (truthy (selectedActivityId (page s)))
         | st_return => false
         end
      then ret None
      else try_catch (getParticipantByQrCode participantId (Some ev))
                     (fun _ => ret None)
  end.

(** [getCurrentActivity] of the page, the component's
    [getParticipantCurrentActivity]: a failed read is [null]. *)
Definition getCurrentActivity (participantId : jsstring)
  : M (option Activity.t) :=
  try_catch (getParticipantCurrentActivity participantId)
            (fun _ => ret None).

(** [activities.find((a) => a.id === selectedActivityId) || null] *)
Definition selectedActivity (p : Page) : option Activity.t :=
  find (fun a => str_eq (Activity.id a) (selectedActivityId p)) (activities p).

End QrScannerPage.

(** ** The scanner component ([components/QrScanner.tsx]) *)

Module QrScanner.

Definition IDLE_TIMEOUT : N := 60000.

(** [setTimeout(cb, delay)]: the callback is pending from now on; the
    handle is returned. *)
Definition setTimeout (a : TimerAction) (delay : N) : M positive :=
  fun s =>
    (Ok (nextTimer (rt s)),
     set_rt (fun r =>
       {| now := now r; nextTimer := Pos.succ (nextTimer r);
          pending := pending r ++
            [{| tid := nextTimer r; due := now r + delay; action := a |}];
          alerts := alerts r; sounds := sounds r |}) s).

(** [clearTimeout(h)]: no effect when [h] already fired or was cleared. *)
Definition clearTimeout (h : positive) : M unit :=
  modify (set_rt (fun r =>
    {| now := now r; nextTimer := nextTimer r;
       pending := List.filter (fun t => negb (Pos.eqb (tid t) h)) (pending r);
       alerts := alerts r; sounds := sounds r |})).

(** [sound.current.play().catch(() => {})] *)
Definition play (x : Sound) : M unit :=
  modify (set_rt (fun r =>
    {| now := now r; nextTimer := nextTimer r; pending := pending r;
       alerts := alerts r; sounds := sounds r ++ [x] |})).

Definition setScanning (b : bool) : M unit :=
  modify (set_comp (fun c =>
    {| scanning := b; scannerKey := scannerKey c; error := error c;
       confirmModalOpen := confirmModalOpen c;
       scannedParticipant := scannedParticipant c;
       currentActivity := currentActivity c; idleTimer := idleTimer c |})).

(** [setScannerKey((prev) => prev + 1)] *)
Definition bumpScannerKey : M unit :=
  modify (set_comp (fun c =>
    {| scanning := scanning c; scannerKey := scannerKey c + 1;
       error := error c; confirmModalOpen := confirmModalOpen c;
       scannedParticipant := scannedParticipant c;
       currentActivity := currentActivity c; idleTimer := idleTimer c |})).

Definition setError (e : option jsstring) : M unit :=
  modify (set_comp (fun c =>
    {| scanning := scanning c; scannerKey := scannerKey c; error := e;
       confirmModalOpen := confirmModalOpen c;
       scannedParticipant := scannedParticipant c;
       currentActivity := currentActivity c; idleTimer := idleTimer c |})).

Definition setConfirmModalOpen (b : bool) : M unit :=
  modify (set_comp (fun c =>
    {| scanning := scanning c; scannerKey := scannerKey c; error := error c;
       confirmModalOpen := b; scannedParticipant := scannedParticipant c;
       currentActivity := currentActivity c; idleTimer := idleTimer c |})).

Definition setScannedParticipant (p : option Participant.t) : M unit :=
  modify (set_comp (fun c =>
    {| scanning := scanning c; scannerKey := scannerKey c; error := error c;
       confirmModalOpen := confirmModalOpen c; scannedParticipant := p;
       currentActivity := currentActivity c; idleTimer := idleTimer c |})).

Definition setCurrentActivity (a : option Activity.t) : M unit :=
  modify (set_comp (fun c =>
    {| scanning := scanning c; scannerKey := scannerKey c; error := error c;
       confirmModalOpen := confirmModalOpen c;
       scannedParticipant := scannedParticipant c;
       currentActivity := a; idleTimer := idleTimer c |})).

(** [idleTimer.current = h] *)
Definition setIdleTimer (h : option positive) : M unit :=
  modify (set_comp (fun c =>
    {| scanning := scanning c; scannerKey := scannerKey c; error := error c;
       confirmModalOpen := confirmModalOpen c;
       scannedParticipant := scannedParticipant c;
       currentActivity := currentActivity c; idleTimer := h |})).

(** [if (idleTimer.current) clearTimeout(idleTimer.current)]: a browser
    timer handle is a positive integer, hence truthy. *)
Definition clearIdleTimer : M unit :=
  s <- get ;
  match idleTimer (comp s) with
  | Some h => clearTimeout h
  | None => ret tt
  end.

Definition resetScanner : M unit :=
  clearIdleTimer ;;
  setScanning false ;;
  bumpScannerKey ;;
  _ <- setTimeout t_rearm 500 ;
  ret tt.

Definition resetIdleTimer : M unit :=
  clearIdleTimer ;;
  h <- setTimeout t_idle IDLE_TIMEOUT ;
  setIdleTimer (Some h).

(** The body of each [setTimeout] callback. *)
Definition run_timer (a : TimerAction) : M unit :=
  match a with
  | t_idle => resetScanner
  | t_rearm => setScanning true ;; resetIdleTimer
  | t_err_not_found => setError None ;; resetScanner
  | t_err_duplicate =>
      setError None ;; setScannedParticipant None ;;
      setCurrentActivity None ;; resetScanner
  | t_err_at_camp =>
      setError None ;; setScannedParticipant None ;; resetScanner
  | t_err_processing => setError None ;; resetScanner
  | t_post_confirm => resetScanner
  | t_err_confirm => setError None ;; resetScanner
  | t_post_cancel => resetScanner
  end.

(** [handleError]: the camera stream failed. *)
Definition handleError : M unit :=
  setError (Some (lit "Error accessing camera. Please check permissions.")) ;;
  play error_sound ;;
  resetScanner.

(** The [getParticipantInfo] prop as the page passes it:
    [(qrCode) => getParticipantByQrCode(qrCode, eventId!)]. *)
Definition getParticipantInfo (qrCode : jsstring)
  : M (option Participant.t) :=
  s <- get ;
  getParticipantByQrCode qrCode (eventId (page s)).

(** [handleScan]: the camera callback; [data] is [null] or [{ text }]. *)
Definition handleScan (data : option jsstring) : M unit :=
  resetIdleTimer ;;
  s <- get ;
  match data with
  | None => ret tt
  | Some text =>
    if negb (truthy text) || negb (scanning (comp s)) then ret tt
    else
      let qrCode := trim text in
      try_catch
        (setScanning false ;;
         participant <- getParticipantInfo qrCode ;
         match participant with
         | None =>
             setError (Some (lit "Invalid QR code. Participant not found.")) ;;
             play error_sound ;;
             _ <- setTimeout t_err_not_found 3000 ;
             ret tt
         | Some p =>
             setScannedParticipant (Some p) ;;
             match scanType (page s) with
             | st_departure =>
                 participantActivity <-
                   QrScannerPage.getCurrentActivity (Participant.id p) ;
                 setCurrentActivity participantActivity ;;
                 match participantActivity with
                 | Some pa =>
                     if opt_str_eq (Some (Activity.id pa))
                          (option_map Activity.id
                             (QrScannerPage.selectedActivity (page s)))
                     then
                       setError (Some (Participant.name p ++
                                       lit " is already at " ++
                                       Activity.name pa ++ lit ".")) ;;
                       play error_sound ;;
                       _ <- setTimeout t_err_duplicate 3000 ;
                       ret tt
                     else
                       play success_sound ;;
                       setConfirmModalOpen true
                 | None =>
                     play success_sound ;;
                     setConfirmModalOpen true
                 end
             | st_return =>
                 participantActivity <-
                   QrScannerPage.getCurrentActivity (Participant.id p) ;
                 match participantActivity with
                 | None =>
                     setError (Some (Participant.name p ++
                                     lit " is already at camp.")) ;;
                     play error_sound ;;
                     _ <- setTimeout t_err_at_camp 3000 ;
                     ret tt
                 | Some _ =>
                     setCurrentActivity participantActivity ;;
                     play success_sound ;;
                     setConfirmModalOpen true
                 end
             | st_unset => ret tt
             end
         end)
        (fun _ =>
           setError (Some (lit "Error processing QR code.")) ;;
           play error_sound ;;
           _ <- setTimeout t_err_processing 3000 ;
           ret tt)
  end.

(** [handleConfirm]: the result of [onScan] is awaited and dropped. *)
Definition handleConfirm : M unit :=
  s <- get ;
  match scannedParticipant (comp s) with
  | None => ret tt
  | Some p =>
    try_catch
      (let activityId :=
         match scanType (page s) with
         | st_departure =>
             or_null (option_map Activity.id
                        (QrScannerPage.selectedActivity (page s)))
         | _ => None
         end in
       _ <- QrScannerPage.validateAndHandleScan (Participant.id p) activityId ;
       setConfirmModalOpen false ;;
       setScannedParticipant None ;;
       setCurrentActivity None ;;
       _ <- setTimeout t_post_confirm 1000 ;
       ret tt)
      (fun _ =>
         setError (Some (lit "Error updating participant activity.")) ;;
         play error_sound ;;
         setConfirmModalOpen false ;;
         _ <- setTimeout t_err_confirm 3000 ;
         ret tt)
  end.

Definition handleCancel : M unit :=
  setConfirmModalOpen false ;;
  setScannedParticipant None ;;
  setCurrentActivity None ;;
  _ <- setTimeout t_post_cancel 500 ;
  ret tt.

End QrScanner.

(** ** The event loop *)

(** The pending timer that is due first; among equals, the one scheduled
    first. *)
Fixpoint earliest (l : list Timer) : option Timer :=
  match l with
  | [] => None
  | t :: l' =>
      match earliest l' with
      | Some t' => if due t' <? due t then Some t' else Some t
      | None => Some t
      end
  end.

(** The runtime fires the earliest pending timer: the clock reaches its due
    time, the timer leaves the pending list (it is single-shot), and its
    callback runs. *)
Definition timeout : M unit :=
  s <- get ;
  match earliest (pending (rt s)) with
  | None => ret tt
  | Some t =>
      modify (set_rt (fun r =>
        {| now := N.max (now r) (due t); nextTimer := nextTimer r;
           pending :=
             List.filter (fun t' => negb (Pos.eqb (tid t') (tid t)))
                         (pending r);
           alerts := alerts r; sounds := sounds r |})) ;;
      QrScanner.run_timer (action t)
  end.

(** Time passes and no callback runs. *)
Definition elapse (d : N) : M unit :=
  modify (set_rt (fun r =>
    {| now := now r + d; nextTimer := nextTimer r; pending := pending r;
       alerts := alerts r; sounds := sounds r |})).

Inductive Event :=
| ev_scan (data : option jsstring)  (* QrReader onScan *)
| ev_camera_error                   (* QrReader onError *)
| ev_confirm                        (* the modal's Confirm button *)
| ev_cancel                         (* the modal's Cancel button or onClose *)
| ev_reset_button                   (* the Reset Scanner button *)
| ev_timeout                        (* the earliest pending timer fires *)
| ev_elapse (d : N).

Definition handler (e : Event) : M unit :=
  match e with
  | ev_scan data => QrScanner.handleScan data
  | ev_camera_error => QrScanner.handleError
  | ev_confirm => QrScanner.handleConfirm
  | ev_cancel => QrScanner.handleCancel
  | ev_reset_button => QrScanner.resetScanner
  | ev_timeout => timeout
  | ev_elapse d => elapse d
  end.

Definition step (e : Event) (s : Sys) : Sys := snd (handler e s).

Definition run (es : list Event) (s : Sys) : Sys :=
  fold_left (fun s e => step e s) es s.

(** The component as [useState] and [useRef] initialise it. *)
Definition mounted_comp : Comp :=
  {| scanning := true; scannerKey := 0; error := None;
     confirmModalOpen := false; scannedParticipant := None;
     currentActivity := None; idleTimer := None |}.

(** A browser tab in which no timer was scheduled yet. *)
Definition fresh_rt : Runtime :=
  {| now := 0; nextTimer := 1%positive; pending := []; alerts := [];
     sounds := [] |}.

(** The scanner right after the page mounted it. *)
Definition mounted (w : World) (p : Page) : Sys :=
  {| world := w; rt := fresh_rt; page := p; comp := mounted_comp |}.

(** ** A small camp, for running the model *)

Module Camp.

Definition ev1 : jsstring := lit "camp-2025".
Definition art : jsstring := lit "a-art".
Definition music : jsstring := lit "a-music".
Definition p1 : jsstring := lit "p-ana".
Definition leader : jsstring := lit "u-leader".

Definition docs : gmap (list N) (list N * list N) :=
  <[art := (lit "Art", ev1)]> (<[music := (lit "Music", ev1)]> ∅).

Definition Art : Activity.t := Activity.mk art (lit "Art") ev1.
Definition Music : Activity.t := Activity.mk music (lit "Music") ev1.

Definition ana : ParticipantDoc :=
  {| doc_eventId := ev1; doc_id := p1; doc_name := lit "Ana";
     doc_qrCode := lit "QR-ANA" |}.

(** Ana's location is [loc]; the store answers the next requests with [fs]. *)
Definition store (loc : gmap (list N) (list N)) (fs : list bool) : World :=
  {| participants := [ana]; activityDocs := docs; currentActivityId := loc;
     logs := []; calls := []; faults := fs |}.

Definition at_art : gmap (list N) (list N) := <[p1 := art]> ∅.

(** A leader's page with scan type [st] and activity [sel] selected. *)
Definition leader_page (st : ScanType) (sel : jsstring) : Page :=
  {| eventId := Some ev1; user := Some (User.mk leader);
     activities := [Art; Music]; selectedActivityId := sel; scanType := st;
     showModal := false; modalMessage := [] |}.

(** The same page with nobody signed in. *)
Definition anonymous_page : Page :=
  {| eventId := Some ev1; user := None; activities := [Art; Music];
     selectedActivityId := art; scanType := st_departure;
     showModal := false; modalMessage := [] |}.

(** The scanner as mounted on the leader's page. *)
Definition scene (st : ScanType) (sel : jsstring)
    (loc : gmap (list N) (list N)) (fs : list bool) : Sys :=
  mounted (store loc fs) (leader_page st sel).

(** The leader scanned Ana's badge and the confirmation modal is open. *)
Definition awaiting (st : ScanType) (sel : jsstring)
    (loc : gmap (list N) (list N)) (fs : list bool) : Sys :=
  step (ev_scan (Some (lit "QR-ANA"))) (scene st sel loc fs).

End Camp.

(** ** Vocabulary of the properties *)

(** The store accepts every coming request. *)
Definition accepting (w : World) : Prop :=
  Forall (fun b => b = false) (faults w).

(** The page is bound to event [ev], the leader [leaderId] is signed in and
    the store accepts what it is sent. *)
Definition ready (s : Sys) (ev leaderId : jsstring) : Prop :=
  QrScannerPage.event_of (page s) = Some ev /\
  QrScannerPage.leader_of (page s) = Some leaderId /\
  accepting (world s).

(** The two writes of an accepted transition, in order. *)
Definition committed (ev participantId : jsstring)
    (target : option jsstring) (entry : ActivityLog.t) (s : Sys) : Sys :=
  set_location participantId target
    (requested (call_updateParticipantLocation ev participantId target)
       (append_log entry
          (requested (call_createActivityLog entry)
             (requested (call_getParticipantCurrentActivity participantId)
                s)))).

(** A request that writes to the store. *)
Definition is_write (c : StoreCall) : bool :=
  match c with
  | call_createActivityLog _ | call_updateParticipantLocation _ _ _ => true
  | _ => false
  end.

(** From [s] to [s'] nothing was written and no write was even requested. *)
Definition unwritten (s s' : Sys) : Prop :=
  logs (world s') = logs (world s) /\
  currentActivityId (world s') = currentActivityId (world s) /\
  List.filter is_write (calls (world s')) =
    List.filter is_write (calls (world s)).

(** One of the two guards of the commit fails for a scan of
    [participantId] towards [target]: a departure to the activity the
    participant is at, or a return from nowhere. *)
Definition guard_fails (s : Sys) (participantId : jsstring)
    (target : option jsstring) : Prop :=
  (scanType (page s) = st_departure /\
   exists A, currentActivityOf (world s) participantId = Some A /\
             target = Some (Activity.id A)) \/
  (scanType (page s) = st_return /\
   currentActivityOf (world s) participantId = None).

(** The validity of a [change] entry against the store it was written to:
    the participant's [currentActivityId] was some activity, recorded as
    [fromActivityId], and the entry's target is another one. *)
Definition change_valid (w : World) (entry : ActivityLog.t) : Prop :=
  exists a,
    currentActivityId w !! ActivityLog.participantId entry = Some a /\
    ActivityLog.fromActivityId entry = Some a /\
    ActivityLog.activityId entry <> Some a.

(** Nothing pending is due within the next [d] milliseconds. *)
Definition calm (d : N) (s : Sys) : Prop :=
  forall t, In t (pending (rt s)) -> now (rt s) + d < due t.

(** After event [e] in state [s], some timer firing within [d] milliseconds
    leaves the scanner decoding. *)
Definition rearms_within (d : N) (e : Event) (s : Sys) : Prop :=
  exists n,
    let s' := run (e :: repeat ev_timeout n) s in
    now (rt s') <= now (rt s) + d /\ scanning (comp s') = true.

(** Only a camera read and a confirmation talk to the store. *)
Definition quiet_event (e : Event) : Prop :=
  match e with
  | ev_scan _ | ev_confirm => False
  | _ => True
  end.

(** The timers of the lifecycle, by purpose. *)
Inductive TimerKind :=
  k_idle | k_rearm | k_cooldown | k_post_confirm | k_post_cancel.

#[global] Instance TimerKind_eq_dec : EqDecision TimerKind.
Proof. solve_decision. Defined.

Definition kind (a : TimerAction) : TimerKind :=
  match a with
  | t_idle => k_idle
  | t_rearm => k_rearm
  | t_post_confirm => k_post_confirm
  | t_post_cancel => k_post_cancel
  | t_err_not_found | t_err_duplicate | t_err_at_camp | t_err_processing
  | t_err_confirm => k_cooldown
  end.

Definition pending_of (k : TimerKind) (s : Sys) : list Timer :=
  List.filter (fun t => bool_decide (kind (action t) = k)) (pending (rt s)).

(** No two timers of one kind are pending at once. *)
Definition no_overlap (s : Sys) : Prop :=
  forall k, (length (pending_of k s) <= 1)%nat.

(** The bookkeeping of the timers: handles are fresh and distinct, and a
    pending idle timer is the one [idleTimer.current] holds. *)
Definition tidy (s : Sys) : Prop :=
  (forall t, In t (pending (rt s)) -> (tid t < nextTimer (rt s))%positive) /\
  NoDup (map tid (pending (rt s))) /\
  (forall t, In t (pending (rt s)) -> action t = t_idle ->
             idleTimer (comp s) = Some (tid t)) /\
  (forall h, idleTimer (comp s) = Some h -> (h < nextTimer (rt s))%positive) /\
  (forall t, In t (pending (rt s)) -> idleTimer (comp s) = Some (tid t) ->
             action t = t_idle).

(** [m] takes every state to an [R]-related one, whether it returns or
    throws. *)
Definition keeps (R : Sys -> Sys -> Prop) {A} (m : M A) : Prop :=
  forall s, R s (snd (m s)).

(** Tidy timers stay tidy. *)
Definition stays_tidy (s s' : Sys) : Prop := tidy s -> tidy s'.

(** Tidy timers stay tidy, and every pending timer other than the idle one
    is still pending. *)
Definition lasting (s s' : Sys) : Prop :=
  tidy s ->
  tidy s' /\
  forall t, In t (pending (rt s)) -> action t <> t_idle ->
            In t (pending (rt s')).

(** [t] is [c] with white space put before and after it. *)
Definition surrounded (c t : jsstring) : Prop :=
  exists l r,
    Forall (fun x => is_white_space x = true) l /\
    Forall (fun x => is_white_space x = true) r /\
    t = l ++ c ++ r.

(** No white space at either end. *)
Definition stripped (k : jsstring) : Prop :=
  (forall x rest, k = x :: rest -> is_white_space x = false) /\
  (forall front x, k = front ++ [x] -> is_white_space x = false).

(** From [s] to [s'] the record of requests only grew. *)
Definition calls_grow (s s' : Sys) : Prop :=
  exists rest, calls (world s') = calls (world s) ++ rest.

(** ** More of the page: selections and rendering *)

(** [setScanType(e.target.value)] of the scan type select. *)
Definition setScanType (v : ScanType) (p : Page) : Page :=
  {| eventId := eventId p; user := user p; activities := activities p;
     selectedActivityId := selectedActivityId p; scanType := v;
     showModal := showModal p; modalMessage := modalMessage p |}.

(** [setSelectedActivityId(e.target.value)] of the class select. *)
Definition setSelectedActivityId (v : jsstring) (p : Page) : Page :=
  {| eventId := eventId p; user := user p; activities := activities p;
     selectedActivityId := v; scanType := scanType p;
     showModal := showModal p; modalMessage := modalMessage p |}.

(** The values the class select offers: the empty placeholder, then every
    activity's id. *)
Definition class_options (p : Page) : list jsstring :=
  [] :: map Activity.id (activities p).

(** What takes the scanner's place below the settings card. *)
Inductive ScannerSlot := slot_select_type | slot_select_class | slot_scanner.

Inductive PageView :=
| view_spinner
| view_error (msg : jsstring)
| view_no_classes
| view_settings (classSelect : bool) (slot : ScannerSlot).

(** The return value of [QrScannerPage]; [loading] and [error] are the two
    pieces of its state that only the activity fetch writes.  [classSelect]
    tells whether the class select is shown.  The settings view is what the
    page hands to [AuthGuard], a component of another file. *)
Definition page_view (loading : bool) (error : option jsstring) (p : Page)
  : PageView :=
  if loading then view_spinner
  else
    match or_null error with
    | Some msg => view_error msg
    | None =>
        match activities p with
        | [] => view_no_classes
        | _ :: _ =>
            view_settings
              (match scanType p with st_departure => true | _ => false end)
              (match scanType p with
               | st_unset => slot_select_type
               | st_departure =>
                   if truthy (selectedActivityId p) then slot_scanner
                   else slot_select_class
               | st_return => slot_scanner
               end)
        end
    end.

(** ** More of the component: what it renders *)

(** [`${selectedActivity?.name}`]: a missing activity prints as
    [undefined]. *)
Definition template_name (a : option Activity.t) : jsstring :=
  match a with
  | Some x => Activity.name x
  | None => lit "undefined"
  end.

(** The card title. *)
Definition scanner_title (p : Page) : jsstring :=
  match scanType p with
  | st_departure =>
      lit "Scan QR to register for " ++
      match QrScannerPage.selectedActivity p with
      | Some a => if truthy (Activity.name a) then Activity.name a
                  else lit "activity"
      | None => lit "activity"
      end
  | _ => lit "Scan QR to check out"
  end.

(** The question inside the confirmation modal, when there is one. *)
Definition confirm_text (s : Sys) : option jsstring :=
  match scannedParticipant (comp s) with
  | None => None
  | Some p =>
      match scanType (page s) with
      | st_departure =>
          Some
            match currentActivity (comp s) with
            | Some ca =>
                Participant.name p ++ lit " is currently at " ++
                Activity.name ca ++ lit ". Change to " ++
                template_name (QrScannerPage.selectedActivity (page s)) ++
                lit "?"
            | None =>
                lit "Register " ++ Participant.name p ++ lit " for " ++
                template_name (QrScannerPage.selectedActivity (page s)) ++
                lit "?"
            end
      | st_return =>
          Some (lit "Confirm " ++ Participant.name p ++
                lit " is returning to camp?")
      | st_unset => None
      end
  end.

(** The timer part of the mount effect's cleanup:
    [if (idleTimer.current) clearTimeout(idleTimer.current)]. *)
Definition unmount_timers : M unit := QrScanner.clearIdleTimer.

(** ** More vocabulary *)

(** The store's answer to the [n]-th coming request: [true] rejects it. *)
Definition rejects (n : nat) (w : World) : bool := nth n (faults w) false.

(** What the commit decides from the scan type, the fetched activity and
    the target: the entry to append and the location to write, or nothing
    when a guard fails or no scan type is set. *)
Definition resolution (st : ScanType) (cur : option Activity.t)
    (target : option jsstring) (ev participantId leaderId : jsstring)
  : option (ActivityLog.t * option jsstring) :=
  match st, cur with
  | st_departure, Some ca =>
      if opt_str_eq (Some (Activity.id ca)) target then None
      else Some (ActivityLog.mk ev participantId target
                   (Some (Activity.id ca)) leaderId change, target)
  | st_departure, None =>
      Some (ActivityLog.mk ev participantId target None leaderId departure,
            target)
  | st_return, Some ca =>
      Some (ActivityLog.mk ev participantId (Some (Activity.id ca)) None
              leaderId return_, None)
  | st_return, None => None
  | st_unset, _ => None
  end.

(** The selections and the identity on the page are as they were. *)
Definition same_selection (s s' : Sys) : Prop :=
  eventId (page s') = eventId (page s) /\
  user (page s') = user (page s) /\
  activities (page s') = activities (page s) /\
  selectedActivityId (page s') = selectedActivityId (page s) /\
  scanType (page s') = scanType (page s).

Definition is_confirm (e : Event) : bool :=
  match e with ev_confirm => true | _ => false end.

(** The camera read that took [s] to [s1] was refused with message [msg]:
    nothing was written, no modal was opened, the message is shown and the
    error sound played; and after the 3 s cooldown and the 0.5 s reset, with
    no other event in between, the message is gone and the scanner decodes
    again. *)
Definition refused (msg : jsstring) (s s1 : Sys) : Prop :=
  unwritten s s1 /\
  scanning (comp s1) = false /\
  confirmModalOpen (comp s1) = confirmModalOpen (comp s) /\
  error (comp s1) = Some msg /\
  sounds (rt s1) = sounds (rt s) ++ [error_sound] /\
  let s3 := run [ev_timeout; ev_timeout] s1 in
  unwritten s s3 /\
  now (rt s3) = now (rt s) + 3500 /\
  scanning (comp s3) = true /\
  error (comp s3) = None.

(** The camera read that took [s] to [s1] asks for a confirmation about
    participant [p], taken to be at [cur]: nothing was written, decoding is
    suspended, the modal is open, the success sound played, and no timer
    was scheduled besides the idle one. *)
Definition asked (p : Participant.t) (cur : option Activity.t) (s s1 : Sys)
  : Prop :=
  unwritten s s1 /\
  scanning (comp s1) = false /\
  confirmModalOpen (comp s1) = true /\
  scannedParticipant (comp s1) = Some p /\
  currentActivity (comp s1) = cur /\
  error (comp s1) = error (comp s) /\
  sounds (rt s1) = sounds (rt s) ++ [success_sound] /\
  same_selection s s1 /\
  forall t, In t (pending (rt s1)) ->
            In t (pending (rt s)) \/ action t = t_idle.

(** The two reads of a camera read that found its participant. *)
Definition scan_reads (text : jsstring) (p : Participant.t) (s : Sys) : Sys :=
  requested (call_getParticipantCurrentActivity (Participant.id p))
    (requested (call_getParticipantByQrCode (trim text) (eventId (page s)))
       s).

(** The component and its timers, clock and sounds are as they were. *)
Definition ui_untouched (s s' : Sys) : Prop :=
  comp s' = comp s /\ now (rt s') = now (rt s) /\
  nextTimer (rt s') = nextTimer (rt s) /\
  pending (rt s') = pending (rt s) /\ sounds (rt s') = sounds (rt s).

(** The message of the [catch] block of [handleConfirm]. *)
Definition confirm_error_text : jsstring :=
  lit "Error updating participant activity.".

(** Neither effect of the [catch] block of [handleConfirm] is present: its
    cooldown timer is not pending and its message is not shown. *)
Definition no_confirm_error (s : Sys) : Prop :=
  (forall t, In t (pending (rt s)) -> action t <> t_err_confirm) /\
  error (comp s) <> Some confirm_error_text.

Definition stays_clear (s s' : Sys) : Prop :=
  no_confirm_error s -> no_confirm_error s'.

Definition is_idle (t : Timer) : bool :=
  match action t with t_idle => true | _ => false end.

Definition is_rearm (t : Timer) : bool :=
  match action t with t_rearm => true | _ => false end.

(** The pending timers whose callback rebuilds the scanner rather than
    re-arming it. *)
Definition busy (s : Sys) : nat :=
  length (List.filter (fun t => negb (is_rearm t)) (pending (rt s))).

(** The scanner is decoding or some timer is on its way. *)
Definition recovering (s : Sys) : Prop :=
  scanning (comp s) = true \/ pending (rt s) <> [].

(** A timer that was pending stays so. *)
Definition still_pending (s s' : Sys) : Prop :=
  pending (rt s) <> [] -> pending (rt s') <> [].

(** * Properties *)

(** ** Scenarios *)

(** Ana is nowhere; the leader selects a departure to Art, scans her badge
    and confirms: one [departure] entry, and Ana is at Art. *)
Example scenario_register :
  let s := run [ev_scan (Some (lit "QR-ANA")); ev_confirm]
               (Camp.scene st_departure Camp.art ∅ []) in
  logs (world s) =
    [ActivityLog.mk Camp.ev1 Camp.p1 (Some Camp.art) None Camp.leader
       departure] /\
  currentActivityId (world s) !! Camp.p1 = Some Camp.art.
Proof. split; vm_compute; reflexivity. Qed.

(** Ana is at Art; a departure to Music, scanned and confirmed: one [change]
    entry from Art to Music, and Ana is at Music. *)
Example scenario_change :
  let s := run [ev_scan (Some (lit "QR-ANA")); ev_confirm]
               (Camp.scene st_departure Camp.music Camp.at_art []) in
  logs (world s) =
    [ActivityLog.mk Camp.ev1 Camp.p1 (Some Camp.music) (Some Camp.art)
       Camp.leader change] /\
  currentActivityId (world s) !! Camp.p1 = Some Camp.music.
Proof. split; vm_compute; reflexivity. Qed.

(** Ana is at Art; a departure to Art is refused at the scan: no modal, no
    entry. *)
Example scenario_duplicate :
  let s := run [ev_scan (Some (lit "QR-ANA"))]
               (Camp.scene st_departure Camp.art Camp.at_art []) in
  confirmModalOpen (comp s) = false /\ logs (world s) = [] /\
  error (comp s) = Some (lit "Ana is already at Art.").
Proof. repeat split; vm_compute; reflexivity. Qed.

(** Ana is at Art; a return, scanned and confirmed: one [return] entry for
    Art, and Ana is nowhere. *)
Example scenario_return :
  let s := run [ev_scan (Some (lit "QR-ANA")); ev_confirm]
               (Camp.scene st_return [] Camp.at_art []) in
  logs (world s) =
    [ActivityLog.mk Camp.ev1 Camp.p1 (Some Camp.art) None Camp.leader
       return_] /\
  currentActivityId (world s) !! Camp.p1 = None.
Proof. split; vm_compute; reflexivity. Qed.

(** ** Running the effects *)

Lemma bind_ok {A B} (m : M A) (k : A -> M B) s a s' :
  m s = (Ok a, s') -> bind m k s = k a s'.
Proof. unfold bind. intros ->. reflexivity. Qed.

Lemma bind_throw {A B} (m : M A) (k : A -> M B) s e s' :
  m s = (Throw e, s') -> bind m k s = (Throw e, s').
Proof. unfold bind. intros ->. reflexivity. Qed.

Lemma try_ok {A} (m : M A) h s a s' :
  m s = (Ok a, s') -> try_catch m h s = (Ok a, s').
Proof. unfold try_catch. intros ->. reflexivity. Qed.

Lemma try_throw {A} (m : M A) h s e s' :
  m s = (Throw e, s') -> try_catch m h s = h e s'.
Proof. unfold try_catch. intros ->. reflexivity. Qed.

(** ** The store *)

Lemma request_cases c s :
  request c s = (Ok tt, requested c s) \/
  request c s = (Throw (rejected c), requested c s).
Proof. unfold request. destruct (faults (world s)) as [|[] fs]; auto. Qed.

Lemma request_accepted c s :
  accepting (world s) -> request c s = (Ok tt, requested c s).
Proof.
  unfold accepting, request. intros H.
  destruct (faults (world s)) as [|[] fs]; try reflexivity.
  inversion H; discriminate.
Qed.

Lemma accepting_requested c s :
  accepting (world s) -> accepting (world (requested c s)).
Proof.
  unfold accepting, requested; simpl. intros H.
  destruct (faults (world s)); [constructor | inversion H; assumption].
Qed.

Lemma accepting_append_log entry s :
  accepting (world s) -> accepting (world (append_log entry s)).
Proof. exact (fun H => H). Qed.

Lemma accepting_set_location pid target s :
  accepting (world s) -> accepting (world (set_location pid target s)).
Proof. exact (fun H => H). Qed.

Lemma getParticipantCurrentActivity_cases pid s :
  let c := call_getParticipantCurrentActivity pid in
  getParticipantCurrentActivity pid s =
    (Ok (currentActivityOf (world s) pid), requested c s) \/
  getParticipantCurrentActivity pid s = (Throw (rejected c), requested c s).
Proof.
  cbv zeta. unfold getParticipantCurrentActivity.
  destruct (request_cases (call_getParticipantCurrentActivity pid) s) as [E|E].
  - left. rewrite (bind_ok _ _ _ _ _ E). reflexivity.
  - right. apply (bind_throw _ _ _ _ _ E).
Qed.

Lemma getParticipantCurrentActivity_accepted pid s :
  accepting (world s) ->
  getParticipantCurrentActivity pid s =
    (Ok (currentActivityOf (world s) pid),
     requested (call_getParticipantCurrentActivity pid) s).
Proof.
  intros H. unfold getParticipantCurrentActivity.
  rewrite (bind_ok _ _ _ _ _ (request_accepted _ _ H)). reflexivity.
Qed.

Lemma createActivityLog_cases entry s :
  let c := call_createActivityLog entry in
  createActivityLog entry s = (Ok tt, append_log entry (requested c s)) \/
  createActivityLog entry s = (Throw (rejected c), requested c s).
Proof.
  cbv zeta. unfold createActivityLog.
  destruct (request_cases (call_createActivityLog entry) s) as [E|E].
  - left. rewrite (bind_ok _ _ _ _ _ E). reflexivity.
  - right. apply (bind_throw _ _ _ _ _ E).
Qed.

Lemma createActivityLog_accepted entry s :
  accepting (world s) ->
  createActivityLog entry s =
    (Ok tt, append_log entry (requested (call_createActivityLog entry) s)).
Proof.
  intros H. unfold createActivityLog.
  rewrite (bind_ok _ _ _ _ _ (request_accepted _ _ H)). reflexivity.
Qed.

Lemma updateParticipantLocation_cases ev pid target s :
  let c := call_updateParticipantLocation ev pid target in
  updateParticipantLocation ev pid target s =
    (Ok tt, set_location pid target (requested c s)) \/
  updateParticipantLocation ev pid target s =
    (Throw (rejected c), requested c s).
Proof.
  cbv zeta. unfold updateParticipantLocation.
  destruct (request_cases (call_updateParticipantLocation ev pid target) s)
    as [E|E].
  - left. rewrite (bind_ok _ _ _ _ _ E). reflexivity.
  - right. apply (bind_throw _ _ _ _ _ E).
Qed.

Lemma updateParticipantLocation_accepted ev pid target s :
  accepting (world s) ->
  updateParticipantLocation ev pid target s =
    (Ok tt,
     set_location pid target
       (requested (call_updateParticipantLocation ev pid target) s)).
Proof.
  intros H. unfold updateParticipantLocation.
  rewrite (bind_ok _ _ _ _ _ (request_accepted _ _ H)). reflexivity.
Qed.

(** A fetched activity is the one the participant's [currentActivityId]
    names. *)
Lemma currentActivityOf_Some w pid a :
  currentActivityOf w pid = Some a ->
  currentActivityId w !! pid = Some (Activity.id a).
Proof.
  unfold currentActivityOf. intros H.
  destruct (currentActivityId w !! pid) as [aid|]; [|discriminate].
  destruct (activityDocs w !! aid) as [[nm ev]|]; [|discriminate].
  inversion H; reflexivity.
Qed.

(** ** The commit: [handleScan] of the page *)

Lemma commit_writes ev pid target entry s :
  accepting (world s) ->
  (createActivityLog entry ;;
   updateParticipantLocation ev pid target ;;
   ret true)
    (requested (call_getParticipantCurrentActivity pid) s) =
  (Ok true, committed ev pid target entry s).
Proof.
  intros H.
  erewrite bind_ok;
    [|apply createActivityLog_accepted, accepting_requested, H].
  erewrite bind_ok;
    [|apply updateParticipantLocation_accepted, accepting_append_log,
        accepting_requested, accepting_requested, H].
  reflexivity.
Qed.

Lemma committed_world ev pid target entry s :
  logs (world (committed ev pid target entry s)) = logs (world s) ++ [entry] /\
  currentActivityId (world (committed ev pid target entry s)) =
    match target with
    | Some a => <[pid := a]> (currentActivityId (world s))
    | None => delete pid (currentActivityId (world s))
    end /\
  calls (world (committed ev pid target entry s)) =
    calls (world s) ++
      [call_getParticipantCurrentActivity pid;
       call_createActivityLog entry;
       call_updateParticipantLocation ev pid target].
Proof.
  unfold committed, set_location, append_log, requested, set_world; simpl.
  rewrite <- !app_assoc. auto.
Qed.

Lemma opt_str_eq_true a b : opt_str_eq a b = true <-> a = b.
Proof. unfold opt_str_eq. apply bool_decide_eq_true. Qed.

Lemma opt_str_eq_false a b : opt_str_eq a b = false <-> a <> b.
Proof. unfold opt_str_eq. apply bool_decide_eq_false. Qed.

(** Enter [handleScan] up to the fetch of the current activity. *)
Ltac enter_commit Hready :=
  let Hev := fresh "Hev" in
  let Hld := fresh "Hld" in
  let Hacc := fresh "Hacc" in
  destruct Hready as (Hev & Hld & Hacc);
  unfold QrScannerPage.handleScan;
  rewrite (bind_ok get _ _ _ _ eq_refl), Hev, Hld;
  apply try_ok;
  erewrite bind_ok
    by (apply getParticipantCurrentActivity_accepted; exact Hacc).

(** C1. A confirmed departure scan of a participant whose freshly fetched
    current activity is [A], towards an activity [B] other than [A], appends
    exactly one log entry of type [change] with [fromActivityId = A] and
    [activityId = B], then sets the participant's [currentActivityId] to
    [B], and reports success. *)
Theorem departure_from_other_activity_logs_change
    s participantId A B ev leaderId :
  ready s ev leaderId ->
  scanType (page s) = st_departure ->
  currentActivityOf (world s) participantId = Some A ->
  Activity.id A <> B ->
  let entry :=
    ActivityLog.mk ev participantId (Some B) (Some (Activity.id A)) leaderId
      change in
  exists s',
    QrScannerPage.handleScan participantId (Some B) s = (Ok true, s') /\
    logs (world s') = logs (world s) ++ [entry] /\
    currentActivityId (world s') =
      <[participantId := B]> (currentActivityId (world s)) /\
    calls (world s') =
      calls (world s) ++
        [call_getParticipantCurrentActivity participantId;
         call_createActivityLog entry;
         call_updateParticipantLocation ev participantId (Some B)].
Proof.
  intros Hready Hst Hcur Hne entry.
  exists (committed ev participantId (Some B) entry s).
  split; [|apply committed_world].
  enter_commit Hready.
  rewrite Hst, Hcur.
  replace (opt_str_eq (Some (Activity.id A)) (Some B)) with false
    by (symmetry; apply opt_str_eq_false; congruence).
  apply commit_writes, Hacc.
Qed.

Lemma departure_from_other_activity_logs_change_witness :
  exists s',
    QrScannerPage.handleScan Camp.p1 (Some Camp.music)
      (Camp.scene st_departure Camp.music Camp.at_art []) = (Ok true, s') /\
    logs (world s') =
      [ActivityLog.mk Camp.ev1 Camp.p1 (Some Camp.music) (Some Camp.art)
         Camp.leader change] /\
    currentActivityId (world s') !! Camp.p1 = Some Camp.music.
Proof.
  destruct (departure_from_other_activity_logs_change
              (Camp.scene st_departure Camp.music Camp.at_art [])
              Camp.p1 Camp.Art Camp.music Camp.ev1 Camp.leader)
    as (s' & Hrun & Hlogs & Hloc & _).
  - repeat split; constructor.
  - reflexivity.
  - vm_compute; reflexivity.
  - vm_compute; discriminate.
  - exists s'. split; [exact Hrun|]. split; [exact Hlogs|].
    rewrite Hloc. apply lookup_insert_eq.
Defined.

(** C3. A confirmed departure scan of a participant whose freshly fetched
    current activity is none, towards activity [B], appends exactly one log
    entry of type [departure] without a [fromActivityId] field and sets the
    participant's [currentActivityId] to [B]. *)
Theorem departure_from_nowhere_logs_departure s participantId B ev leaderId :
  ready s ev leaderId ->
  scanType (page s) = st_departure ->
  currentActivityOf (world s) participantId = None ->
  let entry :=
    ActivityLog.mk ev participantId (Some B) None leaderId departure in
  exists s',
    QrScannerPage.handleScan participantId (Some B) s = (Ok true, s') /\
    logs (world s') = logs (world s) ++ [entry] /\
    currentActivityId (world s') =
      <[participantId := B]> (currentActivityId (world s)) /\
    calls (world s') =
      calls (world s) ++
        [call_getParticipantCurrentActivity participantId;
         call_createActivityLog entry;
         call_updateParticipantLocation ev participantId (Some B)].
Proof.
  intros Hready Hst Hcur entry.
  exists (committed ev participantId (Some B) entry s).
  split; [|apply committed_world].
  enter_commit Hready.
  rewrite Hst, Hcur.
  apply commit_writes, Hacc.
Qed.

Lemma departure_from_nowhere_logs_departure_witness :
  exists s',
    QrScannerPage.handleScan Camp.p1 (Some Camp.art)
      (Camp.scene st_departure Camp.art ∅ []) = (Ok true, s') /\
    logs (world s') =
      [ActivityLog.mk Camp.ev1 Camp.p1 (Some Camp.art) None Camp.leader
         departure] /\
    currentActivityId (world s') !! Camp.p1 = Some Camp.art.
Proof.
  destruct (departure_from_nowhere_logs_departure
              (Camp.scene st_departure Camp.art ∅ [])
              Camp.p1 Camp.art Camp.ev1 Camp.leader)
    as (s' & Hrun & Hlogs & Hloc & _).
  - repeat split; constructor.
  - reflexivity.
  - vm_compute; reflexivity.
  - exists s'. split; [exact Hrun|]. split; [exact Hlogs|].
    rewrite Hloc. apply lookup_insert_eq.
Defined.

(** ** Rejections *)

Lemma unwritten_refl s : unwritten s s.
Proof. repeat split. Qed.

Lemma unwritten_read s pid :
  unwritten s (requested (call_getParticipantCurrentActivity pid) s).
Proof.
  unfold unwritten, requested; simpl.
  rewrite List.filter_app; simpl. rewrite app_nil_r. auto.
Qed.

Lemma unwritten_world s s1 s2 :
  unwritten s s1 -> world s2 = world s1 -> unwritten s s2.
Proof. unfold unwritten. intros H ->. exact H. Qed.

Ltac solve_unwritten :=
  first
    [ solve [eapply unwritten_world; [apply unwritten_refl | reflexivity]]
    | solve [eapply unwritten_world; [apply unwritten_read | reflexivity]] ].

(** A failing guard stops the commit before any write, whoever is signed in
    and whatever the store answers. *)
Lemma guard_rejects s participantId target :
  guard_fails s participantId target ->
  exists s',
    QrScannerPage.handleScan participantId target s = (Ok false, s') /\
    unwritten s s'.
Proof.
  intros Hg. unfold QrScannerPage.handleScan.
  rewrite (bind_ok get _ _ _ _ eq_refl).
  destruct (QrScannerPage.event_of (page s)) as [ev|];
    [|exists s; split; [reflexivity | solve_unwritten]].
  unfold try_catch.
  destruct (QrScannerPage.leader_of (page s)) as [leaderId|].
  2:{ eexists; split; [reflexivity | solve_unwritten]. }
  destruct (getParticipantCurrentActivity_cases participantId s) as [E|E].
  2:{ rewrite (bind_throw _ _ _ _ _ E).
      eexists; split; [reflexivity | solve_unwritten]. }
  rewrite (bind_ok _ _ _ _ _ E).
  destruct Hg as [(Hst & A & Hcur & ->) | (Hst & Hcur)]; rewrite Hst, Hcur.
  - replace (opt_str_eq _ _) with true
      by (symmetry; apply opt_str_eq_true; reflexivity).
    eexists; split; [reflexivity | solve_unwritten].
  - eexists; split; [reflexivity | solve_unwritten].
Qed.

(** C2. A confirmed return scan of a participant whose freshly fetched
    current activity is none is rejected: nothing is appended and the
    location is untouched.  When the fetched activity is [A], exactly one
    log entry of type [return] with [activityId = A] and no [fromActivityId]
    is appended and the participant's [currentActivityId] is cleared. *)
Theorem return_scan_resolution s participantId target :
  scanType (page s) = st_return ->
  (currentActivityOf (world s) participantId = None ->
   exists s',
     QrScannerPage.handleScan participantId target s = (Ok false, s') /\
     unwritten s s') /\
  (forall A ev leaderId,
     ready s ev leaderId ->
     currentActivityOf (world s) participantId = Some A ->
     let entry :=
       ActivityLog.mk ev participantId (Some (Activity.id A)) None leaderId
         return_ in
     exists s',
       QrScannerPage.handleScan participantId target s = (Ok true, s') /\
       logs (world s') = logs (world s) ++ [entry] /\
       currentActivityId (world s') =
         delete participantId (currentActivityId (world s)) /\
       calls (world s') =
         calls (world s) ++
           [call_getParticipantCurrentActivity participantId;
            call_createActivityLog entry;
            call_updateParticipantLocation ev participantId None]).
Proof.
  intros Hst. split.
  - intros Hcur. apply guard_rejects. right. split; assumption.
  - intros A ev leaderId Hready Hcur entry.
    exists (committed ev participantId None entry s).
    split; [|apply committed_world].
    enter_commit Hready.
    rewrite Hst, Hcur.
    apply commit_writes, Hacc.
Qed.

Lemma return_scan_resolution_witness :
  (exists s',
     QrScannerPage.handleScan Camp.p1 None
       (Camp.scene st_return [] ∅ []) = (Ok false, s') /\
     logs (world s') = []) /\
  (exists s',
     QrScannerPage.handleScan Camp.p1 None
       (Camp.scene st_return [] Camp.at_art []) = (Ok true, s') /\
     logs (world s') =
       [ActivityLog.mk Camp.ev1 Camp.p1 (Some Camp.art) None Camp.leader
          return_] /\
     currentActivityId (world s') !! Camp.p1 = None).
Proof.
  split.
  - destruct (return_scan_resolution (Camp.scene st_return [] ∅ [])
                Camp.p1 None eq_refl) as [H _].
    destruct H as (s' & Hrun & Hlogs & _); [vm_compute; reflexivity|].
    exists s'. split; [exact Hrun | exact Hlogs].
  - destruct (return_scan_resolution (Camp.scene st_return [] Camp.at_art [])
                Camp.p1 None eq_refl) as [_ H].
    destruct (H Camp.Art Camp.ev1 Camp.leader)
      as (s' & Hrun & Hlogs & Hloc & _).
    + repeat split; constructor.
    + vm_compute; reflexivity.
    + exists s'. split; [exact Hrun|]. split; [exact Hlogs|].
      rewrite Hloc. apply lookup_delete_eq.
Defined.

(** C8. Without a leader identity at commit time the scan is blocked before
    any store request: for every input the commit reports failure and the
    store, its request record included, is as it was. *)
Theorem unidentified_leader_blocks_commit s participantId target :
  QrScannerPage.leader_of (page s) = None ->
  exists s',
    QrScannerPage.handleScan participantId target s = (Ok false, s') /\
    world s' = world s.
Proof.
  intros Hld. unfold QrScannerPage.handleScan.
  rewrite (bind_ok get _ _ _ _ eq_refl).
  destruct (QrScannerPage.event_of (page s)) as [ev|].
  - rewrite Hld. eexists; split; reflexivity.
  - exists s; split; reflexivity.
Qed.

Lemma unidentified_leader_blocks_commit_witness :
  exists s',
    QrScannerPage.handleScan Camp.p1 (Some Camp.art)
      (mounted (Camp.store ∅ []) Camp.anonymous_page) = (Ok false, s') /\
    world s' = Camp.store ∅ [].
Proof.
  apply (unidentified_leader_blocks_commit
           (mounted (Camp.store ∅ []) Camp.anonymous_page)
           Camp.p1 (Some Camp.art)).
  reflexivity.
Defined.

(** Split on the store's answer to the next write. *)
Ltac write_cases :=
  repeat match goal with
  | |- context [bind (createActivityLog ?e) ?k ?s] =>
      let E := fresh "E" in
      destruct (createActivityLog_cases e s) as [E|E];
      [rewrite (bind_ok _ k _ _ _ E) | rewrite (bind_throw _ k _ _ _ E)];
      cbv beta
  | |- context [bind (updateParticipantLocation ?ev ?p ?t) ?k ?s] =>
      let E := fresh "E" in
      destruct (updateParticipantLocation_cases ev p t s) as [E|E];
      [rewrite (bind_ok _ k _ _ _ E) | rewrite (bind_throw _ k _ _ _ E)];
      cbv beta
  end.

(** What one run of the commit can add to the log: nothing, or one entry
    for the scanned participant and the given target, typed by the activity
    fetched in that same run. *)
Lemma handleScan_appends s participantId target :
  let s' := snd (QrScannerPage.handleScan participantId target s) in
  logs (world s') = logs (world s) \/
  exists entry,
    logs (world s') = logs (world s) ++ [entry] /\
    ActivityLog.participantId entry = participantId /\
    match ActivityLog.type entry with
    | change =>
        scanType (page s) = st_departure /\
        ActivityLog.activityId entry = target /\
        exists A, currentActivityOf (world s) participantId = Some A /\
                  ActivityLog.fromActivityId entry = Some (Activity.id A) /\
                  target <> Some (Activity.id A)
    | departure =>
        scanType (page s) = st_departure /\
        ActivityLog.activityId entry = target /\
        currentActivityOf (world s) participantId = None /\
        ActivityLog.fromActivityId entry = None
    | return_ =>
        scanType (page s) = st_return /\
        ActivityLog.fromActivityId entry = None /\
        exists A, currentActivityOf (world s) participantId = Some A /\
                  ActivityLog.activityId entry = Some (Activity.id A)
    end.
Proof.
  cbv zeta. unfold QrScannerPage.handleScan.
  rewrite (bind_ok get _ _ _ _ eq_refl).
  destruct (QrScannerPage.event_of (page s)) as [ev|]; [|left; reflexivity].
  unfold try_catch.
  destruct (QrScannerPage.leader_of (page s)) as [leaderId|];
    [|left; reflexivity].
  destruct (getParticipantCurrentActivity_cases participantId s) as [E|E];
    [rewrite (bind_ok _ _ _ _ _ E) | rewrite (bind_throw _ _ _ _ _ E)];
    [|left; reflexivity].
  destruct (scanType (page s)) eqn:Hst;
    destruct (currentActivityOf (world s) participantId) as [A|] eqn:Hcur;
    try (left; reflexivity).
  - destruct (opt_str_eq (Some (Activity.id A)) target) eqn:Heq;
      [left; reflexivity|].
    apply opt_str_eq_false in Heq.
    write_cases; try (left; reflexivity);
      right; eexists; (split; [reflexivity|]); simpl;
      (split; [reflexivity|]); (split; [reflexivity|]);
      (split; [reflexivity|]); exists A; repeat split; congruence.
  - write_cases; try (left; reflexivity);
      right; eexists; (split; [reflexivity|]); simpl; auto.
  - write_cases; try (left; reflexivity);
      right; eexists; (split; [reflexivity|]); simpl;
      (split; [reflexivity|]); (split; [reflexivity|]);
      (split; [reflexivity|]); exists A; auto.
Qed.

(** C6. Every log entry of type [change] that the commit appends is valid
    against the store as the commit itself read it, whatever the scanner
    showed at confirmation time: the participant's [currentActivityId] is
    some activity, recorded as [fromActivityId], and the entry's target
    differs from it.  A confirmation that went stale, so that a guard fails
    at commit time, appends nothing and leaves the location alone. *)
Theorem change_entries_valid_at_commit s participantId target :
  let s' := snd (QrScannerPage.handleScan participantId target s) in
  (exists new,
     logs (world s') = logs (world s) ++ new /\
     forall entry,
       In entry new -> ActivityLog.type entry = change ->
       ActivityLog.activityId entry = target /\
       change_valid (world s) entry) /\
  (guard_fails s participantId target ->
   fst (QrScannerPage.handleScan participantId target s) = Ok false /\
   unwritten s s').
Proof.
  cbv zeta. split.
  - destruct (handleScan_appends s participantId target)
      as [H | (entry & H & Hpid & Hty)].
    + exists []. rewrite app_nil_r. split; [exact H | intros ? []].
    + exists [entry]. split; [exact H|].
      intros e [<- | []] Hchange. rewrite Hchange in Hty.
      destruct Hty as (_ & Htarget & A & Hcur & Hfrom & Hne).
      split; [exact Htarget|].
      exists (Activity.id A). rewrite Hpid, Htarget.
      auto using currentActivityOf_Some.
  - intros Hg. destruct (guard_rejects s participantId target Hg)
      as (s' & -> & Hun). split; [reflexivity | exact Hun].
Qed.

Lemma change_entries_valid_at_commit_witness :
  let s := Camp.scene st_departure Camp.art Camp.at_art [] in
  fst (QrScannerPage.handleScan Camp.p1 (Some Camp.art) s) = Ok false /\
  logs (world (snd (QrScannerPage.handleScan Camp.p1 (Some Camp.art) s))) = [].
Proof.
  cbv zeta.
  destruct (change_entries_valid_at_commit
              (Camp.scene st_departure Camp.art Camp.at_art [])
              Camp.p1 (Some Camp.art)) as [_ H].
  destruct H as (Hres & Hlogs & _).
  - left. split; [reflexivity|].
    exists Camp.Art. split; vm_compute; reflexivity.
  - split; [exact Hres | exact Hlogs].
Defined.

(** ** Timers *)

Lemma earliest_last l t :
  (forall t', In t' l -> due t < due t') ->
  earliest (l ++ [t]) = Some t.
Proof.
  induction l as [|a l IH]; intros H; simpl; [reflexivity|].
  rewrite IH by (intros; apply H; right; assumption).
  assert (due t < due a) as Hlt by (apply H; left; reflexivity).
  apply N.ltb_lt in Hlt. rewrite Hlt. reflexivity.
Qed.

Lemma pos_succ_neqb p : (Pos.succ p =? p)%positive = false.
Proof. apply Pos.eqb_neq. lia. Qed.

Lemma pos_neqb_succ p : (p =? Pos.succ p)%positive = false.
Proof. apply Pos.eqb_neq. lia. Qed.

(** Unfold the handlers of the component down to the state they leave. *)
Ltac js_eval_in H :=
  repeat progress
    (cbv beta iota zeta delta
       [run fold_left step handler timeout elapse
        bind ret get modify try_catch set_rt set_comp set_world set_page
        QrScanner.handleScan QrScanner.getParticipantInfo
        getParticipantByQrCode getParticipantCurrentActivity
        QrScannerPage.getCurrentActivity request requested
        QrScanner.handleCancel QrScanner.handleError QrScanner.resetScanner
        QrScanner.resetIdleTimer QrScanner.clearIdleTimer
        QrScanner.clearTimeout QrScanner.setTimeout QrScanner.play
        QrScanner.run_timer QrScanner.setScanning QrScanner.bumpScannerKey
        QrScanner.setError QrScanner.setConfirmModalOpen
        QrScanner.setScannedParticipant QrScanner.setCurrentActivity
        QrScanner.setIdleTimer QrScanner.IDLE_TIMEOUT] in H;
     cbn [fst snd world rt page comp now nextTimer pending alerts sounds
          scanning scannerKey error confirmModalOpen scannedParticipant
          currentActivity idleTimer tid due action
          participants activityDocs currentActivityId logs calls faults tl
          eventId user activities selectedActivityId scanType showModal
          modalMessage negb orb andb] in H).

Ltac js_eval :=
  repeat progress
    (cbv beta iota zeta delta
       [run fold_left step handler timeout elapse
        bind ret get modify try_catch set_rt set_comp set_world set_page
        QrScanner.handleScan QrScanner.getParticipantInfo
        getParticipantByQrCode getParticipantCurrentActivity
        QrScannerPage.getCurrentActivity request requested
        QrScanner.handleCancel QrScanner.handleError QrScanner.resetScanner
        QrScanner.resetIdleTimer QrScanner.clearIdleTimer
        QrScanner.clearTimeout QrScanner.setTimeout QrScanner.play
        QrScanner.run_timer QrScanner.setScanning QrScanner.bumpScannerKey
        QrScanner.setError QrScanner.setConfirmModalOpen
        QrScanner.setScannedParticipant QrScanner.setCurrentActivity
        QrScanner.setIdleTimer QrScanner.IDLE_TIMEOUT];
     cbn [fst snd world rt page comp now nextTimer pending alerts sounds
          scanning scannerKey error confirmModalOpen scannedParticipant
          currentActivity idleTimer tid due action
          participants activityDocs currentActivityId logs calls faults tl
          eventId user activities selectedActivityId scanType showModal
          modalMessage negb orb andb]).

(** Decide which pending timers a hypothesis [In t l] can speak of. *)
Ltac in_pending :=
  repeat match goal with
  | H : In _ (List.filter _ _) |- _ => apply filter_In in H; destruct H
  | H : In _ (_ ++ _) |- _ => apply in_app_or in H; destruct H
  | H : In _ [_] |- _ => destruct H as [<- | []]
  | H : In _ [] |- _ => destruct H
  end;
  cbn [tid due action] in *;
  rewrite ?Pos.eqb_refl, ?pos_succ_neqb, ?pos_neqb_succ in *;
  try discriminate.

(** The timer scheduled last is due before anything else pending. *)
Ltac fire_last Hcalm :=
  rewrite earliest_last
    by (let t := fresh "t" in
        let Ht := fresh "Ht" in
        intros t Ht; in_pending;
        try (specialize (Hcalm _ ltac:(eassumption))); cbn [due]; lia).

Ltac fire_last_in H Hcalm :=
  rewrite earliest_last in H
    by (let t := fresh "t" in
        let Ht := fresh "Ht" in
        intros t Ht; in_pending;
        try (specialize (Hcalm _ ltac:(eassumption))); cbn [due]; lia).

Lemma quiet_step_world e s : quiet_event e -> world (step e s) = world s.
Proof.
  destruct s as [w [nw nt pd al sd] pg [sc sk er cm sp ca it]].
  destruct e; intros []; js_eval; try (destruct it; reflexivity).
  destruct (earliest pd) as [t|]; [|reflexivity].
  destruct (action t); js_eval; destruct it; reflexivity.
Qed.

Lemma quiet_run_world es s :
  Forall quiet_event es -> world (run es s) = world s.
Proof.
  intros H. revert s. induction H as [|e es He _ IH]; intros s.
  - reflexivity.
  - change (run (e :: es) s) with (run es (step e s)).
    rewrite IH. apply quiet_step_world, He.
Qed.

Lemma is_prefix_app a b : is_prefix a (a ++ b) = true.
Proof.
  induction a as [|x a IH]; simpl; [reflexivity|].
  rewrite N.eqb_refl, IH. reflexivity.
Qed.

Lemma includes_prefix a b : includes (a ++ b) a = true.
Proof.
  destruct (a ++ b) eqn:E; simpl; rewrite <- E, is_prefix_app; reflexivity.
Qed.

Lemma truthy_nonempty (t : jsstring) : t <> [] -> truthy t = true.
Proof. destruct t; [congruence | reflexivity]. Qed.

(** C4. A departure scan towards the activity [A] the participant is already
    at is rejected.  The commit refuses it without a write.  The scanner
    refuses it before any confirmation: no write, no modal, an error message
    that contains the participant's name, the error sound, and after 3.5 s
    (the 3 s cooldown and the 0.5 s reset) the message is gone and the
    scanner is armed again. *)
Theorem duplicate_departure_rejected s p A text :
  scanType (page s) = st_departure ->
  (forall participantId,
     currentActivityOf (world s) participantId = Some A ->
     exists s',
       QrScannerPage.handleScan participantId (Some (Activity.id A)) s =
         (Ok false, s') /\
       unwritten s s') /\
  (scanning (comp s) = true -> text <> [] ->
   accepting (world s) -> calm 3500 s ->
   participantByQrCode (world s) (trim text) (eventId (page s)) = Some p ->
   currentActivityOf (world s) (Participant.id p) = Some A ->
   option_map Activity.id (QrScannerPage.selectedActivity (page s)) =
     Some (Activity.id A) ->
   let s1 := step (ev_scan (Some text)) s in
   let s3 := run [ev_timeout; ev_timeout] s1 in
   unwritten s s1 /\
   confirmModalOpen (comp s1) = confirmModalOpen (comp s) /\
   scanning (comp s1) = false /\
   error (comp s1) =
     Some (Participant.name p ++ lit " is already at " ++
           Activity.name A ++ lit ".") /\
   (forall msg, error (comp s1) = Some msg ->
                includes msg (Participant.name p) = true) /\
   sounds (rt s1) = sounds (rt s) ++ [error_sound] /\
   unwritten s s3 /\
   now (rt s3) = now (rt s) + 3500 /\
   scanning (comp s3) = true /\
   error (comp s3) = None /\
   scannedParticipant (comp s3) = None).
Proof.
  intros Hst. split.
  - intros participantId Hcur. apply guard_rejects. left.
    split; [exact Hst|]. exists A. split; [exact Hcur | reflexivity].
  - destruct s as [w [nw nt pd al sd] pg [sc sk er cm sp ca it]].
    cbn [page] in Hst.
    unfold calm, accepting; cbn [world rt page comp scanning pending now].
    intros -> Htext Hacc Hcalm Hp Hcur Hsel.
    apply truthy_nonempty in Htext.
    unfold participantByQrCode in Hp. unfold currentActivityOf in Hcur.
    cbv zeta.
    remember (step (ev_scan (Some text)) _) as s1 eqn:E1.
    js_eval_in E1. rewrite Htext in E1. js_eval_in E1.
    destruct it as [h|]; js_eval_in E1;
    (destruct (faults w) as [|[] [|[] fs]] eqn:Hfs;
        try (exfalso; inversion Hacc as [|? ? Hb Hacc']; try discriminate;
             inversion Hacc'; discriminate));
    js_eval_in E1; unfold participantByQrCode in E1; js_eval_in E1;
    rewrite Hp in E1; js_eval_in E1; rewrite Hst in E1; js_eval_in E1;
    unfold currentActivityOf in E1; js_eval_in E1; rewrite Hcur in E1;
    js_eval_in E1; rewrite Hsel in E1;
    rewrite (proj2 (opt_str_eq_true _ _) eq_refl) in E1; js_eval_in E1;
    subst s1;
    remember (run _ _) as s3 eqn:E3;
    js_eval_in E3; fire_last_in E3 Hcalm; js_eval_in E3;
    fire_last_in E3 Hcalm; js_eval_in E3;
    subst s3; unfold unwritten; js_eval;
    rewrite !List.filter_app; cbn [List.filter is_write]; rewrite !app_nil_r;
    repeat split; try reflexivity; try lia;
    intros msg [= <-]; apply includes_prefix.
Qed.

Lemma duplicate_departure_rejected_witness :
  let s := Camp.scene st_departure Camp.art Camp.at_art [] in
  let s1 := step (ev_scan (Some (lit " QR-ANA "))) s in
  let s3 := run [ev_timeout; ev_timeout] s1 in
  error (comp s1) = Some (lit "Ana is already at Art.") /\
  logs (world s3) = [] /\
  now (rt s3) = 3500 /\
  scanning (comp s3) = true.
Proof.
  cbv zeta.
  destruct (duplicate_departure_rejected
              (Camp.scene st_departure Camp.art Camp.at_art [])
              (Participant.mk Camp.p1 (lit "Ana") (lit "QR-ANA")
                 (Some Camp.art))
              Camp.Art (lit " QR-ANA ") eq_refl) as [_ H].
  destruct H as (_ & _ & _ & Herr & _ & _ & (Hlogs & _) & Hnow & Hscan & _).
  - reflexivity.
  - discriminate.
  - constructor.
  - intros t [].
  - vm_compute; reflexivity.
  - vm_compute; reflexivity.
  - vm_compute; reflexivity.
  - split; [exact Herr|]. split; [exact Hlogs|]. split; assumption.
Defined.

(** ** Cancelling *)

Lemma now_timeout_mono s : now (rt s) <= now (rt (step ev_timeout s)).
Proof.
  destruct s as [w [nw nt pd al sd] pg [sc sk er cm sp ca it]].
  js_eval. destruct (earliest pd) as [t|]; js_eval; [|lia].
  destruct (action t); js_eval; destruct it; js_eval; lia.
Qed.

Lemma now_timeouts_mono n s :
  now (rt s) <= now (rt (run (repeat ev_timeout n) s)).
Proof.
  revert s. induction n as [|n IH]; intros s; [simpl; lia|].
  change (run (repeat ev_timeout (S n)) s)
    with (run (repeat ev_timeout n) (step ev_timeout s)).
  etransitivity; [apply now_timeout_mono | apply IH].
Qed.

(** C7, as the code has it.  Cancelling never touches the store: after any
    number of cancels, with any timers firing in between, the store is as it
    was, so no log entry was appended, no location was updated and no
    request was even sent.  The cancel closes the modal and forgets the
    scanned participant; 0.5 s later the scanner reset runs, still not
    decoding, and a further 0.5 s later, 1 s after the cancel, the scanner
    is armed again. *)
Theorem cancel_never_writes_and_rearms_after_reset s :
  (forall es,
     Forall (fun e => e = ev_cancel \/ e = ev_timeout) es ->
     world (run es s) = world s) /\
  (calm 1000 s ->
   let s1 := step ev_cancel s in
   let s2 := step ev_timeout s1 in
   let s3 := step ev_timeout s2 in
   confirmModalOpen (comp s1) = false /\
   scannedParticipant (comp s1) = None /\
   now (rt s2) = now (rt s) + 500 /\ scanning (comp s2) = false /\
   now (rt s3) = now (rt s) + 1000 /\ scanning (comp s3) = true).
Proof.
  split.
  - intros es H. apply quiet_run_world.
    eapply Forall_impl; [exact H|]. intros e [-> | ->]; exact I.
  - destruct s as [w [nw nt pd al sd] pg [sc sk er cm sp ca it]].
    unfold calm; cbn [rt pending now]. intros Hcalm.
    js_eval. fire_last Hcalm. js_eval.
    destruct it as [h|]; js_eval; fire_last Hcalm; js_eval;
      repeat split; lia.
Qed.

Lemma cancel_never_writes_and_rearms_after_reset_witness :
  let s := Camp.awaiting st_departure Camp.art ∅ [] in
  world (run [ev_cancel; ev_cancel; ev_timeout] s) = world s /\
  now (rt (run [ev_cancel; ev_timeout; ev_timeout] s)) = 1000 /\
  scanning (comp (run [ev_cancel; ev_timeout; ev_timeout] s)) = true.
Proof.
  cbv zeta.
  destruct (cancel_never_writes_and_rearms_after_reset
              (Camp.awaiting st_departure Camp.art ∅ [])) as [Hw Ht].
  split.
  - apply Hw. repeat (constructor; [auto|]). constructor.
  - destruct Ht as (_ & _ & _ & _ & Hnow & Hscan).
    + intros t [<- | []]. vm_compute. reflexivity.
    + split; [exact Hnow | exact Hscan].
Defined.

(** C7, as the spec states it, fails: half a second after a cancel the
    scanner is not armed.  Ana's badge was scanned and the modal is open;
    after the cancel the first timer fires at 500 ms and leaves the scanner
    not decoding, and every later firing is at 1000 ms or after. *)
Lemma cancel_does_not_rearm_in_half_a_second :
  ~ rearms_within 500 ev_cancel (Camp.awaiting st_departure Camp.art ∅ []).
Proof.
  intros (n & Hnow & Hscan).
  destruct n as [|[|n]]; [vm_compute in Hscan; discriminate ..|].
  assert (Hsplit : forall s,
            run (ev_cancel :: repeat ev_timeout (S (S n))) s =
            run (repeat ev_timeout n)
              (run [ev_cancel; ev_timeout; ev_timeout] s))
    by (intros; reflexivity).
  rewrite Hsplit in Hnow. clear Hsplit.
  pose proof (now_timeouts_mono n
    (run [ev_cancel; ev_timeout; ev_timeout]
       (Camp.awaiting st_departure Camp.art ∅ []))) as Hmono.
  assert (Hthen : now (rt (run [ev_cancel; ev_timeout; ev_timeout]
            (Camp.awaiting st_departure Camp.art ∅ []))) = 1000)
    by (vm_compute; reflexivity).
  assert (Hzero : now (rt (Camp.awaiting st_departure Camp.art ∅ [])) = 0)
    by (vm_compute; reflexivity).
  rewrite Hthen in Hmono. rewrite Hzero in Hnow. lia.
Qed.

(** ** Confirming *)

(** The commit never throws: it answers [true] or [false]. *)
Lemma handleScan_never_throws participantId target s :
  exists b s', QrScannerPage.handleScan participantId target s = (Ok b, s').
Proof.
  unfold QrScannerPage.handleScan.
  rewrite (bind_ok get _ _ _ _ eq_refl).
  destruct (QrScannerPage.event_of (page s)) as [ev|];
    [|eexists; eexists; reflexivity].
  unfold try_catch.
  destruct (QrScannerPage.leader_of (page s)) as [leaderId|];
    [|eexists; eexists; reflexivity].
  destruct (getParticipantCurrentActivity_cases participantId s) as [E|E];
    [rewrite (bind_ok _ _ _ _ _ E) | rewrite (bind_throw _ _ _ _ _ E)];
    [|eexists; eexists; reflexivity].
  destruct (scanType (page s));
    destruct (currentActivityOf (world s) participantId) as [A|];
    try destruct (opt_str_eq (Some (Activity.id A)) target);
    write_cases; eexists; eexists; reflexivity.
Qed.

(** Neither does [onScan], so the [catch] of [handleConfirm] is never
    entered. *)
Lemma validateAndHandleScan_never_throws participantId activityId s :
  exists b s',
    QrScannerPage.validateAndHandleScan participantId activityId s =
      (Ok b, s').
Proof.
  unfold QrScannerPage.validateAndHandleScan.
  rewrite (bind_ok get _ _ _ _ eq_refl).
  destruct (scanType (page s));
    [destruct (or_null (Some (selectedActivityId (page s))))|..];
    try apply handleScan_never_throws; eexists; eexists; reflexivity.
Qed.

(** An answer of [true] means that both writes were accepted, in order;
    when either is rejected the caller is told [false]. *)
Lemma handleScan_true_committed participantId target s s' :
  QrScannerPage.handleScan participantId target s = (Ok true, s') ->
  scanType (page s) = st_unset \/
  exists ev entry target',
    s' = committed ev participantId target' entry s.
Proof.
  unfold QrScannerPage.handleScan.
  rewrite (bind_ok get _ _ _ _ eq_refl).
  destruct (QrScannerPage.event_of (page s)) as [ev|]; [|discriminate].
  unfold try_catch.
  destruct (QrScannerPage.leader_of (page s)) as [leaderId|];
    [|discriminate].
  destruct (getParticipantCurrentActivity_cases participantId s) as [E|E];
    [rewrite (bind_ok _ _ _ _ _ E) | rewrite (bind_throw _ _ _ _ _ E)];
    [|discriminate].
  destruct (scanType (page s)); [| |left; reflexivity];
    destruct (currentActivityOf (world s) participantId) as [A|];
    try destruct (opt_str_eq (Some (Activity.id A)) target);
    write_cases; try discriminate;
    intros [= <-]; right; eexists; eexists; eexists; reflexivity.
Qed.

(** C5, at the failing inputs.  Ana is nowhere, the leader scans her badge
    for Art and confirms.  In the first run the store rejects the log
    append, in the second the location update.  Both times the commit tells
    its caller [false], as the claim says.  But [handleConfirm] drops that
    answer: the modal closes, no error message is set, no error sound is
    played, and the timer it schedules is the 1 s re-arm of the success
    path, not the 3 s error cooldown.  In the second run the log entry stays
    written while Ana's location is still none. *)
Theorem commit_failure_takes_success_path :
  let entry :=
    ActivityLog.mk Camp.ev1 Camp.p1 (Some Camp.art) None Camp.leader
      departure in
  let observe (s : Sys) :=
    (fst (QrScannerPage.validateAndHandleScan Camp.p1 (Some Camp.art) s),
     let s' := step ev_confirm s in
     (logs (world s'), currentActivityId (world s') !! Camp.p1,
      confirmModalOpen (comp s'), error (comp s'), sounds (rt s'),
      map (fun t => (action t, due t)) (pending (rt s')))) in
  observe (Camp.awaiting st_departure Camp.art ∅ [false; false; false; true])
  = (Ok false,
     ([], None, false, None, [success_sound],
      [(t_idle, 60000); (t_post_confirm, 1000)])) /\
  observe (Camp.awaiting st_departure Camp.art ∅
             [false; false; false; false; true])
  = (Ok false,
     ([entry], None, false, None, [success_sound],
      [(t_idle, 60000); (t_post_confirm, 1000)])).
Proof. split; vm_compute; reflexivity. Qed.

(** ** What every handler preserves *)

Section Preservation.

Variable R : Sys -> Sys -> Prop.
Hypothesis R_refl : forall s, R s s.
Hypothesis R_trans : forall s1 s2 s3, R s1 s2 -> R s2 s3 -> R s1 s3.

Lemma keeps_ret {A} (a : A) : keeps R (ret a).
Proof. intros s. apply R_refl. Qed.

Lemma keeps_get : keeps R get.
Proof. intros s. apply R_refl. Qed.

Lemma keeps_bind {A B} (m : M A) (k : A -> M B) :
  keeps R m -> (forall a, keeps R (k a)) -> keeps R (bind m k).
Proof.
  intros Hm Hk s. unfold bind. specialize (Hm s).
  destruct (m s) as [[a|e] s1]; simpl in *; [|exact Hm].
  eapply R_trans; [exact Hm | apply Hk].
Qed.

Lemma keeps_try_catch {A} (m : M A) h :
  keeps R m -> (forall e, keeps R (h e)) -> keeps R (try_catch m h).
Proof.
  intros Hm Hh s. unfold try_catch. specialize (Hm s).
  destruct (m s) as [[a|e] s1]; simpl in *; [exact Hm|].
  eapply R_trans; [exact Hm | apply Hh].
Qed.

End Preservation.

(** Walk through a handler: sequencing, [try]/[catch] and branching keep
    what every primitive keeps; [prim] settles the primitives. *)
Ltac keeps_walk R refl trans prim :=
  repeat first
    [ exact (keeps_ret R refl _)
    | exact (keeps_get R refl)
    | prim
    | apply (keeps_bind R trans); [|intros ?]
    | apply (keeps_try_catch R trans); [|intros ?]
    | match goal with
      | |- keeps _ (match ?x with _ => _ end) => destruct x
      | |- keeps _ (let _ := _ in _) => cbv zeta
      end ].

(** *** The timers stay tidy *)

Lemma stays_tidy_refl s : stays_tidy s s.
Proof. exact (fun H => H). Qed.

Lemma stays_tidy_trans s1 s2 s3 :
  stays_tidy s1 s2 -> stays_tidy s2 s3 -> stays_tidy s1 s3.
Proof. unfold stays_tidy. auto. Qed.

(** A step that leaves the pending timers, the next handle and the idle
    handle alone. *)
Lemma stays_tidy_frame s s' :
  pending (rt s') = pending (rt s) ->
  nextTimer (rt s') = nextTimer (rt s) ->
  idleTimer (comp s') = idleTimer (comp s) ->
  stays_tidy s s'.
Proof. unfold stays_tidy, tidy. intros -> -> ->. exact (fun H => H). Qed.

Lemma NoDup_map_filter {A B} (f : A -> B) p (l : list A) :
  NoDup (map f l) -> NoDup (map f (List.filter p l)).
Proof.
  induction l as [|a l IH]; simpl; intros H; [constructor|].
  apply NoDup_cons in H as [Hin Hnd].
  destruct (p a); simpl; [|auto].
  apply NoDup_cons. split; [|auto].
  intros Hin'. apply Hin.
  apply list_elem_of_In, in_map_iff in Hin' as (x & <- & Hx).
  apply filter_In in Hx as [Hx _].
  apply list_elem_of_In, in_map. exact Hx.
Qed.

(** Dropping pending timers keeps the rest tidy. *)
Lemma tidy_filter p w r pg c nw' :
  tidy {| world := w; rt := r; page := pg; comp := c |} ->
  tidy {| world := w;
          rt := {| now := nw'; nextTimer := nextTimer r;
                   pending := List.filter p (pending r);
                   alerts := alerts r; sounds := sounds r |};
          page := pg; comp := c |}.
Proof.
  unfold tidy; simpl. intros (Hlt & Hnd & Hidle & Href & Hown). repeat split.
  - intros t Ht. apply filter_In in Ht as [Ht _]. auto.
  - apply NoDup_map_filter, Hnd.
  - intros t Ht. apply filter_In in Ht as [Ht _]. auto.
  - exact Href.
  - intros t Ht. apply filter_In in Ht as [Ht _]. auto.
Qed.

Lemma keeps_tidy_clearTimeout h : keeps stays_tidy (QrScanner.clearTimeout h).
Proof. intros [w r pg c] H. exact (tidy_filter _ w r pg c (now r) H). Qed.

Lemma keeps_tidy_clearIdleTimer : keeps stays_tidy QrScanner.clearIdleTimer.
Proof.
  unfold QrScanner.clearIdleTimer.
  keeps_walk stays_tidy stays_tidy_refl stays_tidy_trans
    ltac:(apply keeps_tidy_clearTimeout).
Qed.

(** A timer other than the idle one is scheduled under a fresh handle. *)
Lemma keeps_tidy_setTimeout a d :
  a <> t_idle -> keeps stays_tidy (QrScanner.setTimeout a d).
Proof.
  intros Ha [w [nw nt pd al sd] pg c] (Hlt & Hnd & Hidle & Href & Hown).
  unfold tidy in *; simpl in *. repeat split.
  - intros t [Ht | [<- | []]]%in_app_or; simpl; [|lia].
    specialize (Hlt t Ht). lia.
  - rewrite map_app. simpl. apply NoDup_app. repeat split.
    + exact Hnd.
    + intros x Hx [->|[]%elem_of_nil]%elem_of_cons.
      apply list_elem_of_In, in_map_iff in Hx as (t & Heq & Ht).
      specialize (Hlt t Ht). lia.
    + apply NoDup_singleton.
  - intros t [Ht | [<- | []]]%in_app_or; simpl; [auto | congruence].
  - intros h Hh. specialize (Href h Hh). lia.
  - intros t [Ht | [<- | []]]%in_app_or; simpl; [auto|].
    intros Hh. specialize (Href _ Hh). lia.
Qed.

(** Clearing the idle timer leaves no idle timer pending; the next one is
    then scheduled under the handle that [idleTimer.current] receives. *)
Lemma keeps_tidy_resetIdleTimer : keeps stays_tidy QrScanner.resetIdleTimer.
Proof.
  intros [w [nw nt pd al sd] pg [sc sk er cm sp ca it]]
    (Hlt & Hnd & Hidle & Href & Hown).
  unfold tidy in *; simpl in *.
  assert (Hgone : forall p t,
            In t (if it is Some h
                  then List.filter (fun t => negb (tid t =? h)%positive) pd
                  else pd) ->
            action t = t_idle -> p).
  { intros p t Ht Hact. destruct it as [h|].
    - apply filter_In in Ht as [Ht Hne].
      specialize (Hidle t Ht Hact). injection Hidle as ->.
      rewrite Pos.eqb_refl in Hne. discriminate.
    - specialize (Hidle t Ht Hact). discriminate. }
  assert (Hsub : forall t,
            In t (if it is Some h
                  then List.filter (fun t => negb (tid t =? h)%positive) pd
                  else pd) -> In t pd).
  { intros t Ht. destruct it; [apply filter_In in Ht as [Ht _]|]; exact Ht. }
  assert (Hnd' : NoDup (map tid
            (if it is Some h
             then List.filter (fun t => negb (tid t =? h)%positive) pd
             else pd))).
  { destruct it; [apply NoDup_map_filter|]; exact Hnd. }
  destruct it as [h|]; js_eval; repeat split.
  all: try (intros t [Ht | [<- | []]]%in_app_or; simpl;
            [first [ specialize (Hlt t (Hsub t Ht)); lia
                   | intros Hact; exact (Hgone _ t Ht Hact)
                   | intros [= Hh]; specialize (Hlt t (Hsub t Ht)); lia ]
            | first [ lia | reflexivity ]]).
  all: try (intros h' [= <-]; lia).
  all: rewrite map_app; simpl; apply NoDup_app; repeat split;
    [ exact Hnd'
    | intros x Hx [->|[]%elem_of_nil]%elem_of_cons;
      apply list_elem_of_In, in_map_iff in Hx as (t & Heq & Ht);
      specialize (Hlt t (Hsub t Ht)); lia
    | apply NoDup_singleton ].
Qed.

Lemma keeps_tidy_modify f :
  (forall s,
     pending (rt (f s)) = pending (rt s) /\
     nextTimer (rt (f s)) = nextTimer (rt s) /\
     idleTimer (comp (f s)) = idleTimer (comp s)) ->
  keeps stays_tidy (modify f).
Proof.
  intros H s. destruct (H s) as (Hp & Hn & Hi).
  apply stays_tidy_frame; assumption.
Qed.

Lemma keeps_tidy_request c : keeps stays_tidy (request c).
Proof.
  intros s. unfold request.
  destruct (faults (world s)) as [|[] fs];
    apply stays_tidy_frame; reflexivity.
Qed.

(** The settled primitives first, then one layer of definitions. *)
Ltac tidy_prim :=
  first
    [ apply keeps_tidy_resetIdleTimer
    | apply keeps_tidy_clearIdleTimer
    | apply keeps_tidy_setTimeout; discriminate
    | apply keeps_tidy_request
    | apply keeps_tidy_modify; intros ?; repeat split; reflexivity
    | progress unfold
        QrScanner.resetScanner, QrScanner.run_timer, QrScanner.handleError,
        QrScanner.handleScan, QrScanner.handleConfirm, QrScanner.handleCancel,
        QrScanner.getParticipantInfo, QrScanner.play, QrScanner.setScanning,
        QrScanner.bumpScannerKey, QrScanner.setError,
        QrScanner.setConfirmModalOpen, QrScanner.setScannedParticipant,
        QrScanner.setCurrentActivity,
        QrScannerPage.validateAndHandleScan, QrScannerPage.handleScan,
        QrScannerPage.getCurrentActivity, QrScannerPage.showMissingSelection,
        getParticipantByQrCode, getParticipantCurrentActivity,
        createActivityLog, updateParticipantLocation, alert, elapse ].

Ltac tidy_walk :=
  keeps_walk stays_tidy stays_tidy_refl stays_tidy_trans tidy_prim.

Lemma keeps_tidy_timeout : keeps stays_tidy timeout.
Proof.
  unfold timeout.
  apply (keeps_bind stays_tidy stays_tidy_trans);
    [exact (keeps_get stays_tidy stays_tidy_refl)|].
  intros s0. destruct (earliest (pending (rt s0))) as [t|];
    [|exact (keeps_ret stays_tidy stays_tidy_refl _)].
  apply (keeps_bind stays_tidy stays_tidy_trans).
  - intros [w r pg c] H. exact (tidy_filter _ w r pg c _ H).
  - intros _. tidy_walk.
Qed.

Lemma keeps_tidy_handler e : keeps stays_tidy (handler e).
Proof. destruct e; unfold handler; try apply keeps_tidy_timeout; tidy_walk. Qed.

Lemma tidy_mounted w pg : tidy (mounted w pg).
Proof.
  unfold tidy; simpl.
  split; [intros ? []|]. split; [apply NoDup_nil_2|].
  split; [intros ? []|]. split; [intros ? [=] | intros ? []].
Qed.

Lemma tidy_run es s : tidy s -> tidy (run es s).
Proof.
  revert s. induction es as [|e es IH]; intros s H; [exact H|].
  apply (IH (step e s)), (keeps_tidy_handler e s), H.
Qed.

Lemma earliest_In l t : earliest l = Some t -> In t l.
Proof.
  revert t. induction l as [|a l IH]; simpl; intros t H; [discriminate|].
  destruct (earliest l) as [t'|].
  - destruct (due t' <? due a); injection H as <-; auto.
  - injection H as <-. auto.
Qed.

(** Among timers with distinct handles, those that share the handle [h]
    are at most one. *)
Lemma at_most_one_by_handle p h (l : list Timer) :
  NoDup (map tid l) ->
  (forall t, In t l -> p t = true -> tid t = h) ->
  (length (List.filter p l) <= 1)%nat.
Proof.
  induction l as [|a l IH]; simpl; intros Hnd Hh; [lia|].
  apply NoDup_cons in Hnd as [Hin Hnd].
  destruct (p a) eqn:Ha; [|apply IH; auto].
  assert (List.filter p l = []) as ->; [|simpl; lia].
  destruct (List.filter p l) as [|b l'] eqn:E; [reflexivity|].
  assert (In b (List.filter p l)) as Hb by (rewrite E; left; reflexivity).
  apply filter_In in Hb as [Hb Hpb].
  exfalso. apply Hin. apply list_elem_of_In, in_map_iff.
  exists b. split; [|exact Hb].
  rewrite (Hh a), (Hh b); auto.
Qed.

(** A timer that fired is gone: nothing pending carries its handle. *)
Lemma fired_timer_gone s t :
  tidy s -> earliest (pending (rt s)) = Some t ->
  forall t', In t' (pending (rt (step ev_timeout s))) -> tid t' <> tid t.
Proof.
  destruct s as [w [nw nt pd al sd] pg [sc sk er cm sp ca it]].
  unfold tidy; cbn [rt comp pending nextTimer idleTimer].
  intros (Hlt & _) He.
  pose proof (Hlt t (earliest_In _ _ He)) as Hfresh.
  js_eval. rewrite He. js_eval.
  destruct (action t); js_eval; destruct it as [h|]; js_eval;
    intros t' Ht'; in_pending;
    first
      [ match goal with
        | H : negb (tid t' =? tid t)%positive = true |- _ =>
            apply negb_true_iff, Pos.eqb_neq in H; exact H
        end
      | lia ].
Qed.

(** *** Timers other than the idle one are never cleared *)

Lemma lasting_refl s : lasting s s.
Proof. intros H. split; [exact H | auto]. Qed.

Lemma lasting_trans s1 s2 s3 : lasting s1 s2 -> lasting s2 s3 -> lasting s1 s3.
Proof.
  intros H12 H23 H1.
  destruct (H12 H1) as [H2 Hin12]. destruct (H23 H2) as [H3 Hin23].
  split; auto.
Qed.

Lemma keeps_lasting_intro {A} (m : M A) :
  keeps stays_tidy m ->
  (forall s, tidy s ->
     forall t, In t (pending (rt s)) -> action t <> t_idle ->
               In t (pending (rt (snd (m s))))) ->
  keeps lasting m.
Proof. intros Ht Hin s H. split; [apply Ht, H | apply Hin, H]. Qed.

Lemma keeps_lasting_modify f :
  (forall s,
     pending (rt (f s)) = pending (rt s) /\
     nextTimer (rt (f s)) = nextTimer (rt s) /\
     idleTimer (comp (f s)) = idleTimer (comp s)) ->
  keeps lasting (modify f).
Proof.
  intros H. apply keeps_lasting_intro; [apply keeps_tidy_modify, H|].
  intros s _ t Ht _. simpl. destruct (H s) as [-> _]. exact Ht.
Qed.

Lemma keeps_lasting_request c : keeps lasting (request c).
Proof.
  apply keeps_lasting_intro; [apply keeps_tidy_request|].
  intros s _ t Ht _. unfold request.
  destruct (faults (world s)) as [|[] fs]; exact Ht.
Qed.

Lemma keeps_lasting_setTimeout a d :
  a <> t_idle -> keeps lasting (QrScanner.setTimeout a d).
Proof.
  intros Ha. apply keeps_lasting_intro; [apply keeps_tidy_setTimeout, Ha|].
  intros s _ t Ht _. simpl. apply in_or_app. left. exact Ht.
Qed.

(** The handle in [idleTimer.current] never names another timer. *)
Lemma keeps_lasting_clearIdleTimer : keeps lasting QrScanner.clearIdleTimer.
Proof.
  apply keeps_lasting_intro; [apply keeps_tidy_clearIdleTimer|].
  intros [w [nw nt pd al sd] pg [sc sk er cm sp ca it]] (_ & _ & _ & _ & Hown).
  simpl in *. intros t Ht Hact. destruct it as [h|]; js_eval; [|exact Ht].
  apply filter_In. split; [exact Ht|].
  apply negb_true_iff, Pos.eqb_neq. intros <-. auto.
Qed.

Lemma keeps_lasting_resetIdleTimer : keeps lasting QrScanner.resetIdleTimer.
Proof.
  apply keeps_lasting_intro; [apply keeps_tidy_resetIdleTimer|].
  intros [w [nw nt pd al sd] pg [sc sk er cm sp ca it]] (_ & _ & _ & _ & Hown).
  simpl in *. intros t Ht Hact.
  destruct it as [h|]; js_eval; apply in_or_app; left; [|exact Ht].
  apply filter_In. split; [exact Ht|].
  apply negb_true_iff, Pos.eqb_neq. intros <-. auto.
Qed.

Ltac lasting_prim :=
  first
    [ apply keeps_lasting_resetIdleTimer
    | apply keeps_lasting_clearIdleTimer
    | apply keeps_lasting_setTimeout; discriminate
    | apply keeps_lasting_request
    | apply keeps_lasting_modify; intros ?; repeat split; reflexivity
    | progress unfold
        QrScanner.resetScanner, QrScanner.run_timer, QrScanner.handleError,
        QrScanner.handleScan, QrScanner.handleConfirm, QrScanner.handleCancel,
        QrScanner.getParticipantInfo, QrScanner.play, QrScanner.setScanning,
        QrScanner.bumpScannerKey, QrScanner.setError,
        QrScanner.setConfirmModalOpen, QrScanner.setScannedParticipant,
        QrScanner.setCurrentActivity,
        QrScannerPage.validateAndHandleScan, QrScannerPage.handleScan,
        QrScannerPage.getCurrentActivity, QrScannerPage.showMissingSelection,
        getParticipantByQrCode, getParticipantCurrentActivity,
        createActivityLog, updateParticipantLocation, alert, elapse ].

Ltac lasting_walk :=
  keeps_walk lasting lasting_refl lasting_trans lasting_prim.

Lemma keeps_lasting_run_timer a : keeps lasting (QrScanner.run_timer a).
Proof. destruct a; lasting_walk. Qed.

Lemma keeps_lasting_handler e :
  e <> ev_timeout -> keeps lasting (handler e).
Proof. destruct e; intros He; try congruence; unfold handler; lasting_walk. Qed.

Lemma NoDup_map_inj {A B} (f : A -> B) (l : list A) a b :
  NoDup (map f l) -> In a l -> In b l -> f a = f b -> a = b.
Proof.
  induction l as [|x l IH]; simpl; intros Hnd Ha Hb Hf; [destruct Ha|].
  apply NoDup_cons in Hnd as [Hx Hnd].
  destruct Ha as [-> | Ha], Hb as [-> | Hb]; auto.
  - exfalso. apply Hx. rewrite Hf. apply list_elem_of_In, in_map, Hb.
  - exfalso. apply Hx. rewrite <- Hf. apply list_elem_of_In, in_map, Ha.
Qed.

(** A pending timer other than the idle one stays pending, whatever
    happens, until the runtime fires it. *)
Lemma pending_until_fired s e t :
  tidy s -> In t (pending (rt s)) -> action t <> t_idle ->
  In t (pending (rt (step e s))) \/
  (e = ev_timeout /\ earliest (pending (rt s)) = Some t).
Proof.
  intros Htidy Ht Hact.
  assert (e = ev_timeout \/ e <> ev_timeout) as [-> | He]
    by (destruct e; first [left; reflexivity | right; discriminate]).
  2:{ left. apply (keeps_lasting_handler e He s Htidy); assumption. }
  destruct (earliest (pending (rt s))) as [t0|] eqn:E.
  2:{ left. unfold step, handler, timeout.
      rewrite (bind_ok get _ _ _ _ eq_refl), E. exact Ht. }
  destruct (decide (tid t = tid t0)) as [Heq | Hne].
  { right. split; [reflexivity|]. f_equal. symmetry.
    destruct Htidy as (_ & Hnd & _).
    apply (NoDup_map_inj tid (pending (rt s))); auto using earliest_In. }
  left. unfold step, handler, timeout.
  rewrite (bind_ok get _ _ _ _ eq_refl), E.
  match goal with
  | |- context [bind (modify ?f) ?k s] =>
      rewrite (bind_ok (modify f) k s tt (f s) eq_refl)
  end.
  destruct s as [w r pg c].
  apply (keeps_lasting_run_timer (action t0)); [|simpl|exact Hact].
  - exact (tidy_filter _ w r pg c _ Htidy).
  - apply filter_In. split; [exact Ht|].
    apply negb_true_iff, Pos.eqb_neq, Hne.
Qed.

Lemma kind_idle a : kind a = k_idle -> a = t_idle.
Proof. destruct a; simpl; congruence. Qed.

(** C9, as the code has it.  In every state the scanner reaches from its
    mount: at most one idle timer is pending and [idleTimer.current] holds
    its handle, because [resetIdleTimer] clears that handle before it
    schedules the next one; every timer is single-shot, once the runtime
    fired it nothing pending carries its handle; and a pending timer other
    than the idle one (a cooldown, a post-confirm or post-cancel delay, the
    re-arm of a reset) is never cleared: whatever happens next, it stays
    pending until the runtime fires it. *)
Theorem idle_timer_never_overlaps es w pg :
  let s := run es (mounted w pg) in
  (length (pending_of k_idle s) <= 1)%nat /\
  (forall t, In t (pending_of k_idle s) ->
             idleTimer (comp s) = Some (tid t)) /\
  (forall t, earliest (pending (rt s)) = Some t ->
             forall t', In t' (pending (rt (step ev_timeout s))) ->
                        tid t' <> tid t) /\
  (forall e t, In t (pending (rt s)) -> action t <> t_idle ->
               In t (pending (rt (step e s))) \/
               (e = ev_timeout /\ earliest (pending (rt s)) = Some t)).
Proof.
  cbv zeta.
  pose proof (tidy_run es _ (tidy_mounted w pg)) as Htidy.
  set (s := run es (mounted w pg)) in *.
  pose proof Htidy as (Hlt & Hnd & Hidle & _).
  assert (Href : forall t, In t (pending_of k_idle s) ->
                           idleTimer (comp s) = Some (tid t)).
  { intros t Ht. apply filter_In in Ht as [Ht Hk].
    apply bool_decide_eq_true, kind_idle in Hk. auto. }
  split; [|split; [exact Href|split]].
  - destruct (idleTimer (comp s)) as [h|] eqn:Hit.
    + apply (at_most_one_by_handle _ h); [exact Hnd|].
      intros t Ht Hk.
      assert (In t (pending_of k_idle s)) as Hin
        by (apply filter_In; split; assumption).
      specialize (Href t Hin). congruence.
    + destruct (pending_of k_idle s) as [|t l] eqn:E; [simpl; lia|].
      specialize (Href t (or_introl eq_refl)). discriminate.
  - intros t. apply fired_timer_gone, Htidy.
  - intros e t. apply pending_until_fired, Htidy.
Qed.

Lemma idle_timer_never_overlaps_witness :
  let s := run [ev_scan None; ev_scan None] (Camp.scene st_return [] ∅ []) in
  map tid (pending (rt s)) = [2%positive] /\
  forall t', In t' (pending (rt (step ev_timeout s))) ->
             tid t' <> 2%positive.
Proof.
  cbv zeta. split; [vm_compute; reflexivity|].
  destruct (idle_timer_never_overlaps [ev_scan None; ev_scan None]
              (Camp.store ∅ []) (Camp.leader_page st_return []))
    as (_ & _ & Hshot & _).
  apply (Hshot {| tid := 2; due := 60000; action := t_idle |}).
  vm_compute. reflexivity.
Defined.

(** C9, as the spec states it, fails.  A badge that nobody owns is scanned;
    the leader presses Reset Scanner during the 3 s error cooldown; the
    scanner is armed again 0.5 s later with the cooldown timer still
    pending, and a second scan of the same badge schedules a second cooldown
    timer next to it. *)
Lemma cooldown_timers_overlap :
  ~ (forall es, no_overlap (run es (Camp.scene st_return [] ∅ []))).
Proof.
  intros H.
  specialize (H [ev_scan (Some (lit "nope")); ev_reset_button; ev_timeout;
                 ev_scan (Some (lit "nope"))] k_cooldown).
  vm_compute in H. lia.
Qed.

(** ** Trimming the decoded text *)

Lemma trimStart_ws l s :
  Forall (fun x => is_white_space x = true) l ->
  trimStart (l ++ s) = trimStart s.
Proof.
  induction 1 as [|x l Hx _ IH]; simpl; [reflexivity|].
  rewrite Hx. exact IH.
Qed.

Lemma trimStart_keeps_tail c r :
  trimStart c <> [] -> trimStart (c ++ r) = trimStart c ++ r.
Proof.
  induction c as [|x c IH]; simpl; [congruence|].
  destruct (is_white_space x); [exact IH | reflexivity].
Qed.

Lemma trimStart_nil_ws c r :
  trimStart c = [] ->
  Forall (fun x => is_white_space x = true) r ->
  trimStart (c ++ r) = [].
Proof.
  induction c as [|x c IH]; simpl; intros Hc Hr.
  - rewrite <- (app_nil_r r). rewrite trimStart_ws; auto.
  - destruct (is_white_space x); [auto | discriminate].
Qed.

Lemma trimStart_head s x rest :
  trimStart s = x :: rest -> is_white_space x = false.
Proof.
  induction s as [|y s IH]; simpl; [discriminate|].
  destruct (is_white_space y) eqn:Hy; [exact IH|].
  intros [= <- _]. exact Hy.
Qed.

(** What [trimStart] drops is white space in front of what it keeps. *)
Lemma trimStart_suffix s :
  exists l, s = l ++ trimStart s /\
            Forall (fun x => is_white_space x = true) l.
Proof.
  induction s as [|y s (l & IH & Hl)]; simpl.
  - exists []. split; [reflexivity | constructor].
  - destruct (is_white_space y) eqn:Hy.
    + exists (y :: l). split; [simpl; congruence | constructor; assumption].
    + exists []. split; [reflexivity | constructor].
Qed.

Lemma trimEnd_ws s r :
  Forall (fun x => is_white_space x = true) r ->
  trimEnd (s ++ r) = trimEnd s.
Proof.
  intros Hr. unfold trimEnd. rewrite rev_app_distr.
  rewrite trimStart_ws; [reflexivity | apply List.Forall_rev, Hr].
Qed.

Lemma trim_surrounded c t : surrounded c t -> trim t = trim c.
Proof.
  intros (l & r & Hl & Hr & ->). unfold trim.
  rewrite trimStart_ws by exact Hl.
  destruct (trimStart c) as [|x u] eqn:E.
  - rewrite trimStart_nil_ws by assumption. reflexivity.
  - rewrite trimStart_keeps_tail by congruence. rewrite E.
    apply trimEnd_ws, Hr.
Qed.

Lemma trim_stripped s : stripped (trim s).
Proof.
  unfold stripped, trim, trimEnd. split.
  - intros x rest E.
    destruct (trimStart_suffix (rev (trimStart s))) as (l & Hl & _).
    apply (f_equal (@rev N)) in Hl. rewrite rev_involutive, rev_app_distr in Hl.
    rewrite E in Hl. simpl in Hl.
    apply (trimStart_head s x (rest ++ rev l)). exact Hl.
  - intros front x E.
    apply (f_equal (@rev N)) in E. rewrite rev_involutive, rev_app_distr in E.
    simpl in E. apply (trimStart_head _ _ _ E).
Qed.

(** What [trimEnd] drops is white space behind what it keeps. *)
Lemma trimEnd_prefix s :
  exists r, s = trimEnd s ++ r /\
            Forall (fun x => is_white_space x = true) r.
Proof.
  destruct (trimStart_suffix (rev s)) as (l & Hl & Hws).
  exists (rev l). split; [|apply List.Forall_rev, Hws].
  unfold trimEnd. rewrite <- rev_app_distr, <- Hl, rev_involutive.
  reflexivity.
Qed.

(** The trimmed text sits in the text, between white space. *)
Lemma trim_in_text t : surrounded (trim t) t.
Proof.
  destruct (trimStart_suffix t) as (l & Hl & Hlws).
  destruct (trimEnd_prefix (trimStart t)) as (r & Hr & Hrws).
  exists l, r. split; [exact Hlws|]. split; [exact Hrws|].
  unfold trim. rewrite <- Hr. exact Hl.
Qed.

(** A text without white space at its ends is its own trim. *)
Lemma trim_of_stripped k : stripped k -> trim k = k.
Proof.
  intros [Hfirst Hlast]. unfold trim, trimEnd.
  assert (trimStart k = k) as ->.
  { destruct k as [|x rest]; [reflexivity|]. simpl.
    rewrite (Hfirst x rest eq_refl). reflexivity. }
  destruct (rev k) as [|x front] eqn:E.
  - apply (f_equal (@rev N)) in E. rewrite rev_involutive in E.
    symmetry. exact E.
  - assert (k = rev front ++ [x]) as Hk.
    { apply (f_equal (@rev N)) in E. rewrite rev_involutive in E. exact E. }
    simpl. rewrite (Hlast (rev front) x Hk). symmetry. exact Hk.
Qed.

(** The trimmed text is the only part of the text that has white space
    around it and none at its ends. *)
Lemma trim_unique k t : surrounded k t -> stripped k -> k = trim t.
Proof.
  intros Hs Hk. rewrite (trim_surrounded k t Hs).
  symmetry. apply trim_of_stripped, Hk.
Qed.

(** *** The record of requests only grows *)

Lemma calls_grow_refl s : calls_grow s s.
Proof. exists []. symmetry. apply app_nil_r. Qed.

Lemma calls_grow_trans s1 s2 s3 :
  calls_grow s1 s2 -> calls_grow s2 s3 -> calls_grow s1 s3.
Proof.
  intros (r1 & H1) (r2 & H2). exists (r1 ++ r2).
  rewrite H2, H1. symmetry. apply app_assoc.
Qed.

Lemma keeps_calls_request c : keeps calls_grow (request c).
Proof.
  intros s. exists [c]. unfold request.
  destruct (faults (world s)) as [|[] fs]; reflexivity.
Qed.

Lemma keeps_calls_modify f :
  (forall s, calls (world (f s)) = calls (world s)) ->
  keeps calls_grow (modify f).
Proof.
  intros H s. exists []. simpl. rewrite H. symmetry. apply app_nil_r.
Qed.

Lemma keeps_calls_setTimeout a d : keeps calls_grow (QrScanner.setTimeout a d).
Proof. intros s. exists []. simpl. symmetry. apply app_nil_r. Qed.

Ltac calls_prim :=
  first
    [ apply keeps_calls_request
    | apply keeps_calls_setTimeout
    | apply keeps_calls_modify; intros ?; reflexivity
    | progress unfold
        QrScanner.resetScanner, QrScanner.resetIdleTimer,
        QrScanner.clearIdleTimer, QrScanner.clearTimeout,
        QrScanner.setIdleTimer, QrScanner.run_timer, QrScanner.handleError,
        QrScanner.handleScan, QrScanner.handleConfirm, QrScanner.handleCancel,
        QrScanner.getParticipantInfo, QrScanner.play, QrScanner.setScanning,
        QrScanner.bumpScannerKey, QrScanner.setError,
        QrScanner.setConfirmModalOpen, QrScanner.setScannedParticipant,
        QrScanner.setCurrentActivity,
        QrScannerPage.validateAndHandleScan, QrScannerPage.handleScan,
        QrScannerPage.getCurrentActivity, QrScannerPage.showMissingSelection,
        getParticipantByQrCode, getParticipantCurrentActivity,
        createActivityLog, updateParticipantLocation, alert, elapse, timeout ].

Ltac calls_walk :=
  keeps_walk calls_grow calls_grow_refl calls_grow_trans calls_prim.

Lemma try_catch_bind_ok {A B} (m : M A) (k : A -> M B) h s a s' :
  m s = (Ok a, s') -> try_catch (bind m k) h s = try_catch (k a) h s'.
Proof. unfold try_catch, bind. intros ->. reflexivity. Qed.

Lemma try_catch_bind_throw {A B} (m : M A) (k : A -> M B) h s e s' :
  m s = (Throw e, s') -> try_catch (bind m k) h s = h e s'.
Proof. unfold try_catch, bind. intros ->. reflexivity. Qed.

Lemma resetIdleTimer_result s :
  exists s1,
    QrScanner.resetIdleTimer s = (Ok tt, s1) /\
    world s1 = world s /\ page s1 = page s /\
    scanning (comp s1) = scanning (comp s).
Proof.
  destruct s as [w [nw nt pd al sd] pg [sc sk er cm sp ca it]].
  destruct it; eexists; (split; [reflexivity|]); auto.
Qed.

(** The camera callback reads the decoded text twice: to see that it is
    not empty, and trimmed. *)
Lemma handleScan_reads_trimmed t1 t2 :
  t1 <> [] -> t2 <> [] -> trim t1 = trim t2 ->
  QrScanner.handleScan (Some t1) = QrScanner.handleScan (Some t2).
Proof.
  intros H1 H2 H. unfold QrScanner.handleScan.
  rewrite (truthy_nonempty t1 H1), (truthy_nonempty t2 H2), H. reflexivity.
Qed.

(** The first request of an accepted read is the lookup of the trimmed
    text. *)
Lemma handleScan_first_request t s :
  t <> [] -> scanning (comp s) = true ->
  exists rest,
    calls (world (step (ev_scan (Some t)) s)) =
    calls (world s) ++
      call_getParticipantByQrCode (trim t) (eventId (page s)) :: rest.
Proof.
  intros Ht Hsc. unfold step, handler, QrScanner.handleScan.
  destruct (resetIdleTimer_result s) as (s1 & E1 & Hw & Hpg & Hsc1).
  rewrite (bind_ok _ _ _ _ _ E1), (bind_ok get _ _ _ _ eq_refl).
  rewrite (truthy_nonempty t Ht), Hsc1, Hsc. cbn [negb orb].
  rewrite (try_catch_bind_ok (QrScanner.setScanning false) _ _ s1 tt _ eq_refl).
  unfold QrScanner.getParticipantInfo at 1.
  match goal with
  | |- context [try_catch (bind (bind get ?k) ?K) ?h ?s2] =>
      change (try_catch (bind (bind get k) K) h s2)
        with (try_catch (bind (k s2) K) h s2)
  end.
  unfold getParticipantByQrCode at 1.
  match goal with
  | |- context [try_catch (bind (bind (request ?c) ?k) ?K) ?h ?s2] =>
      destruct (request_cases c s2) as [E|E];
      [ rewrite (try_catch_bind_ok (bind (request c) k) K h s2
                   (participantByQrCode (world (requested c s2)) (trim t)
                      (eventId (page s2)))
                   (requested c s2))
          by (rewrite (bind_ok _ _ _ _ _ E); reflexivity)
      | rewrite (try_catch_bind_throw (bind (request c) k) K h s2
                   (rejected c) (requested c s2))
          by (apply bind_throw, E) ];
      match goal with
      | |- context [snd (?m (requested c s2))] =>
          assert (keeps calls_grow m) as Hk by calls_walk;
          destruct (Hk (requested c s2)) as (rest & ->)
      end
  end.
  all: exists rest; simpl; rewrite Hw, Hpg, <- app_assoc; reflexivity.
Qed.

(** C10, amended.  A decoded text that is not empty is stripped of leading
    and trailing white space before the participant lookup.  For two
    non-empty texts that are the same code [c] with white space around it:
    the camera callback behaves identically, state for state, so both
    resolve to the same participant; the two trimmed texts are equal; and
    for each text [t] the trimmed text is [t] without its surrounding white
    space (it sits in [t] between white space, has none at its ends, and is
    the only part of [t] of that kind), and it is the key of the lookup,
    the first request an armed scanner sends. *)
Theorem surrounding_whitespace_is_ignored c t1 t2 s :
  surrounded c t1 -> surrounded c t2 -> t1 <> [] -> t2 <> [] ->
  step (ev_scan (Some t1)) s = step (ev_scan (Some t2)) s /\
  trim t1 = trim t2 /\
  forall t, t = t1 \/ t = t2 ->
    surrounded (trim t) t /\ stripped (trim t) /\
    (forall k, surrounded k t -> stripped k -> k = trim t) /\
    (scanning (comp s) = true ->
     exists rest,
       calls (world (step (ev_scan (Some t)) s)) =
       calls (world s) ++
         call_getParticipantByQrCode (trim t) (eventId (page s)) :: rest).
Proof.
  intros Hs1 Hs2 Hn1 Hn2.
  apply trim_surrounded in Hs1, Hs2.
  split; [|split; [congruence|]].
  - unfold step, handler.
    rewrite (handleScan_reads_trimmed t1 t2); congruence.
  - intros t Ht.
    split; [apply trim_in_text|]. split; [apply trim_stripped|].
    split; [intros k; apply trim_unique|].
    intros Hsc. apply handleScan_first_request; [|exact Hsc].
    destruct Ht as [-> | ->]; assumption.
Qed.

Lemma surrounding_whitespace_is_ignored_witness :
  let s := Camp.scene st_departure Camp.art ∅ [] in
  step (ev_scan (Some (lit "QR-ANA"))) s =
  step (ev_scan (Some (lit "  QR-ANA "))) s /\
  surrounded (trim (lit "  QR-ANA ")) (lit "  QR-ANA ") /\
  exists rest,
    calls (world (step (ev_scan (Some (lit "  QR-ANA "))) s)) =
    calls (world s) ++
      call_getParticipantByQrCode (trim (lit "  QR-ANA "))
        (eventId (page s)) :: rest.
Proof.
  cbv zeta.
  destruct (surrounding_whitespace_is_ignored
              (lit "QR-ANA") (lit "QR-ANA") (lit "  QR-ANA ")
              (Camp.scene st_departure Camp.art ∅ [])) as (H & _ & Hkey).
  - exists [], []. repeat split; constructor.
  - exists (lit "  "), (lit " ").
    repeat split; repeat (constructor; [reflexivity|]); constructor.
  - discriminate.
  - discriminate.
  - destruct (Hkey (lit "  QR-ANA ") (or_intror eq_refl))
      as (Hin & _ & _ & Hreq).
    split; [exact H|]. split; [exact Hin|]. apply Hreq. reflexivity.
Defined.

(** C10, as the spec states it for every decoded text, fails.  The empty
    text and a text of two spaces differ only in surrounding white space
    (both are the empty code with white space around it), yet an armed
    scanner drops the empty text at its guard and sends no request, while
    it trims the blank text and asks the store for the participant with
    the empty code. *)
Lemma empty_and_blank_text_are_not_read_alike :
  ~ (forall c t1 t2 s,
       surrounded c t1 -> surrounded c t2 -> scanning (comp s) = true ->
       calls (world (step (ev_scan (Some t1)) s)) =
       calls (world (step (ev_scan (Some t2)) s))).
Proof.
  intros H.
  specialize (H [] [] (lit "  ") (Camp.scene st_return [] ∅ [])).
  assert (surrounded [] []) as H1
    by (exists [], []; repeat split; constructor).
  assert (surrounded [] (lit "  ")) as H2
    by (exists (lit "  "), [];
        repeat split; repeat (constructor; [reflexivity|]); constructor).
  specialize (H H1 H2 eq_refl).
  vm_compute in H. discriminate H.
Qed.

(** * More properties of the page *)

(** ** Caller-side validation *)

(** X1. [validateAndHandleScan] stops a scan without a scan type, or a departure
    without a class, before the store is touched: the answer is [false], the
    Missing Selection modal opens with its message, and the store, its
    request record included, is as it was. *)
Theorem validation_blocks_incomplete_selection s participantId activityId :
  scanType (page s) = st_unset \/
  (scanType (page s) = st_departure /\ selectedActivityId (page s) = []) ->
  exists s',
    QrScannerPage.validateAndHandleScan participantId activityId s =
      (Ok false, s') /\
    world s' = world s /\ rt s' = rt s /\ comp s' = comp s /\
    showModal (page s') = true /\
    modalMessage (page s') =
      match scanType (page s) with
      | st_unset => lit "Please select a scan type before scanning."
      | _ => lit "Please select an activity for departure."
      end.
Proof.
  intros H. unfold QrScannerPage.validateAndHandleScan.
  rewrite (bind_ok get _ _ _ _ eq_refl).
  destruct H as [-> | [-> ->]]; eexists; (split; [reflexivity|]);
    repeat split; reflexivity.
Qed.

Lemma validation_blocks_incomplete_selection_witness :
  exists s',
    QrScannerPage.validateAndHandleScan Camp.p1 (Some Camp.art)
      (Camp.scene st_departure [] ∅ []) = (Ok false, s') /\
    calls (world s') = [] /\
    modalMessage (page s') = lit "Please select an activity for departure.".
Proof.
  destruct (validation_blocks_incomplete_selection
              (Camp.scene st_departure [] ∅ []) Camp.p1 (Some Camp.art))
    as (s' & Hrun & Hw & _ & _ & _ & Hmsg).
  - right. split; reflexivity.
  - exists s'. split; [exact Hrun|]. rewrite Hw. split; [reflexivity|].
    exact Hmsg.
Defined.

(** X2. Where the page mounts the scanner, the validation cannot fail: the
    component's [onScan] is the commit itself, run with the page's own
    selection whatever activity the component passes. *)
Theorem mounted_scanner_commits_page_selection
    loading error classSelect s participantId activityId :
  page_view loading error (page s) = view_settings classSelect slot_scanner ->
  QrScannerPage.validateAndHandleScan participantId activityId s =
  QrScannerPage.handleScan participantId
    (or_null (Some (selectedActivityId (page s)))) s /\
  (scanType (page s) = st_departure ->
   or_null (Some (selectedActivityId (page s))) =
     Some (selectedActivityId (page s))).
Proof.
  unfold page_view, QrScannerPage.validateAndHandleScan.
  rewrite (bind_ok get _ _ _ _ eq_refl).
  destruct loading; [discriminate|].
  destruct (or_null error); [discriminate|].
  destruct (activities (page s)); [discriminate|].
  destruct (scanType (page s)); simpl.
  - destruct (truthy (selectedActivityId (page s))) eqn:E; [|discriminate].
    intros _. split; reflexivity.
  - intros _. split; [reflexivity | discriminate].
  - discriminate.
Qed.

Lemma mounted_scanner_commits_page_selection_witness :
  let s := Camp.scene st_departure Camp.art ∅ [] in
  QrScannerPage.validateAndHandleScan Camp.p1 None s =
  QrScannerPage.handleScan Camp.p1 (Some Camp.art) s.
Proof.
  cbv zeta.
  destruct (mounted_scanner_commits_page_selection false None true
              (Camp.scene st_departure Camp.art ∅ []) Camp.p1 None eq_refl)
    as [H _].
  exact H.
Defined.

(** ** The commit, step by step *)

Lemma request_answer c s :
  request c s =
  (if rejects 0 (world s) then Throw (rejected c) else Ok tt, requested c s).
Proof.
  unfold request, rejects. destruct (faults (world s)) as [|[] fs]; reflexivity.
Qed.

Lemma rejects_requested n c s :
  rejects n (world (requested c s)) = rejects (S n) (world s).
Proof.
  unfold rejects, requested; simpl.
  destruct (faults (world s)); [destruct n|]; reflexivity.
Qed.

Lemma accepting_rejects w n : accepting w -> rejects n w = false.
Proof.
  unfold accepting, rejects. intros H. revert n.
  induction H as [|b fs Hb _ IH]; intros [|n]; simpl; auto.
Qed.

Lemma resolution_cases st cur target ev pid lid entry loc :
  resolution st cur target ev pid lid = Some (entry, loc) ->
  ActivityLog.eventId entry = ev /\
  ActivityLog.participantId entry = pid /\
  ActivityLog.leaderId entry = lid /\
  st <> st_unset.
Proof.
  unfold resolution.
  destruct st, cur as [ca|]; try discriminate;
    try destruct (opt_str_eq _ _); try discriminate;
    intros [= <- <-]; repeat split; discriminate.
Qed.

Lemma getParticipantCurrentActivity_answer pid s :
  getParticipantCurrentActivity pid s =
  (if rejects 0 (world s)
   then Throw (rejected (call_getParticipantCurrentActivity pid))
   else Ok (currentActivityOf (world s) pid),
   requested (call_getParticipantCurrentActivity pid) s).
Proof.
  unfold getParticipantCurrentActivity, bind. rewrite request_answer.
  destruct (rejects 0 (world s)); reflexivity.
Qed.

Lemma writes_answer ev pid e l s :
  (createActivityLog e ;; updateParticipantLocation ev pid l ;; ret true) s =
  if rejects 0 (world s)
  then (Throw (rejected (call_createActivityLog e)),
        requested (call_createActivityLog e) s)
  else if rejects 1 (world s)
       then (Throw (rejected (call_updateParticipantLocation ev pid l)),
             requested (call_updateParticipantLocation ev pid l)
               (append_log e (requested (call_createActivityLog e) s)))
       else (Ok true,
             set_location pid l
               (requested (call_updateParticipantLocation ev pid l)
                  (append_log e (requested (call_createActivityLog e) s)))).
Proof.
  unfold createActivityLog, updateParticipantLocation.
  unfold bind at 1 2. rewrite request_answer.
  destruct (rejects 0 (world s)); [reflexivity|].
  unfold modify at 1. unfold bind at 1 2. rewrite request_answer.
  change (rejects 0 (world (append_log e (requested _ s))))
    with (rejects 0 (world (requested (call_createActivityLog e) s))).
  rewrite rejects_requested.
  destruct (rejects 1 (world s)); reflexivity.
Qed.

(** The commit of an accepted transition, by the store's answers to the
    append and to the location update. *)
Lemma handleScan_resolved s pid target ev lid entry loc :
  QrScannerPage.event_of (page s) = Some ev ->
  QrScannerPage.leader_of (page s) = Some lid ->
  rejects 0 (world s) = false ->
  resolution (scanType (page s)) (currentActivityOf (world s) pid) target
    ev pid lid = Some (entry, loc) ->
  let s1 := requested (call_createActivityLog entry)
              (requested (call_getParticipantCurrentActivity pid) s) in
  QrScannerPage.handleScan pid target s =
  if rejects 1 (world s) then (Ok false, s1)
  else if rejects 2 (world s)
       then (Ok false,
             requested (call_updateParticipantLocation ev pid loc)
               (append_log entry s1))
       else (Ok true, committed ev pid loc entry s).
Proof.
  intros Hev Hld H0 Hres. cbv zeta.
  unfold QrScannerPage.handleScan.
  rewrite (bind_ok get _ _ _ _ eq_refl), Hev, Hld.
  unfold try_catch.
  erewrite bind_ok
    by (rewrite getParticipantCurrentActivity_answer, H0; reflexivity).
  unfold resolution in Hres.
  destruct (scanType (page s)); [| |discriminate];
    destruct (currentActivityOf (world s) pid) as [ca|];
    try destruct (opt_str_eq (Some (Activity.id ca)) target);
    try discriminate; injection Hres as <- <-;
    rewrite writes_answer, !rejects_requested;
    destruct (rejects 1 (world s)); try reflexivity;
    destruct (rejects 2 (world s)); reflexivity.
Qed.

(** ** When the store rejects a step of the commit *)

(** X3. No rollback: when the store accepts the log append and then rejects the
    location update, the commit answers [false], the entry stays in the log
    and the participant's location is what it was. *)
Theorem rejected_location_update_keeps_the_entry
    s participantId target ev leaderId entry loc :
  QrScannerPage.event_of (page s) = Some ev ->
  QrScannerPage.leader_of (page s) = Some leaderId ->
  resolution (scanType (page s)) (currentActivityOf (world s) participantId)
    target ev participantId leaderId = Some (entry, loc) ->
  rejects 0 (world s) = false -> rejects 1 (world s) = false ->
  rejects 2 (world s) = true ->
  exists s',
    QrScannerPage.handleScan participantId target s = (Ok false, s') /\
    logs (world s') = logs (world s) ++ [entry] /\
    currentActivityId (world s') = currentActivityId (world s) /\
    calls (world s') =
      calls (world s) ++
        [call_getParticipantCurrentActivity participantId;
         call_createActivityLog entry;
         call_updateParticipantLocation ev participantId loc].
Proof.
  intros Hev Hld Hres H0 H1 H2.
  rewrite (handleScan_resolved s participantId target ev leaderId entry loc)
    by assumption.
  rewrite H1, H2. eexists. split; [reflexivity|].
  unfold append_log, requested, set_world; simpl.
  rewrite <- !app_assoc. auto.
Qed.

Lemma rejected_location_update_keeps_the_entry_witness :
  exists s',
    QrScannerPage.handleScan Camp.p1 (Some Camp.art)
      (Camp.scene st_departure Camp.art ∅ [false; false; true]) =
      (Ok false, s') /\
    logs (world s') =
      [ActivityLog.mk Camp.ev1 Camp.p1 (Some Camp.art) None Camp.leader
         departure] /\
    currentActivityId (world s') !! Camp.p1 = None.
Proof.
  destruct (rejected_location_update_keeps_the_entry
              (Camp.scene st_departure Camp.art ∅ [false; false; true])
              Camp.p1 (Some Camp.art) Camp.ev1 Camp.leader
              (ActivityLog.mk Camp.ev1 Camp.p1 (Some Camp.art) None
                 Camp.leader departure)
              (Some Camp.art))
    as (s' & Hrun & Hlogs & Hloc & _);
    try reflexivity.
  exists s'. split; [exact Hrun|]. split; [exact Hlogs|].
  rewrite Hloc. reflexivity.
Defined.

(** X4. A rejection of the fetch or of the log append writes nothing, and the
    location update is not even requested: the commit answers [false] with
    the log and every location as they were. *)
Theorem rejected_append_skips_location_update
    s participantId target ev leaderId :
  QrScannerPage.event_of (page s) = Some ev ->
  QrScannerPage.leader_of (page s) = Some leaderId ->
  (rejects 0 (world s) = true ->
   exists s',
     QrScannerPage.handleScan participantId target s = (Ok false, s') /\
     unwritten s s' /\
     calls (world s') =
       calls (world s) ++ [call_getParticipantCurrentActivity participantId]) /\
  (forall entry loc,
     resolution (scanType (page s))
       (currentActivityOf (world s) participantId)
       target ev participantId leaderId = Some (entry, loc) ->
     rejects 0 (world s) = false -> rejects 1 (world s) = true ->
     exists s',
       QrScannerPage.handleScan participantId target s = (Ok false, s') /\
       logs (world s') = logs (world s) /\
       currentActivityId (world s') = currentActivityId (world s) /\
       calls (world s') =
         calls (world s) ++
           [call_getParticipantCurrentActivity participantId;
            call_createActivityLog entry]).
Proof.
  intros Hev Hld. split.
  - intros H0. unfold QrScannerPage.handleScan.
    rewrite (bind_ok get _ _ _ _ eq_refl), Hev, Hld.
    unfold try_catch.
    erewrite bind_throw
      by (rewrite getParticipantCurrentActivity_answer, H0; reflexivity).
    eexists. split; [reflexivity|]. split; [apply unwritten_read|reflexivity].
  - intros entry loc Hres H0 H1.
    rewrite (handleScan_resolved s participantId target ev leaderId entry loc)
      by assumption.
    rewrite H1. eexists. split; [reflexivity|].
    unfold requested, set_world; simpl. rewrite <- !app_assoc. auto.
Qed.

Lemma rejected_append_skips_location_update_witness :
  exists s',
    QrScannerPage.handleScan Camp.p1 (Some Camp.music)
      (Camp.scene st_departure Camp.music Camp.at_art [false; true]) =
      (Ok false, s') /\
    logs (world s') = [] /\
    length (calls (world s')) = 2%nat.
Proof.
  destruct (rejected_append_skips_location_update
              (Camp.scene st_departure Camp.music Camp.at_art [false; true])
              Camp.p1 (Some Camp.music) Camp.ev1 Camp.leader eq_refl eq_refl)
    as [_ H].
  destruct (H (ActivityLog.mk Camp.ev1 Camp.p1 (Some Camp.music)
                 (Some Camp.art) Camp.leader change) (Some Camp.music))
    as (s' & Hrun & Hlogs & _ & Hcalls);
    try (vm_compute; reflexivity).
  exists s'. split; [exact Hrun|]. split; [exact Hlogs|].
  rewrite Hcalls. reflexivity.
Defined.

(** ** Edges of the commit *)

(** X5. Called with no scan type selected, the commit fetches the current
    activity (that fetch is the one request it sends), writes nothing and
    still answers [true]; only the caller-side validation keeps this answer
    from the scanner. *)
Theorem unset_scan_type_answers_true_without_writing
    s participantId target ev leaderId :
  QrScannerPage.event_of (page s) = Some ev ->
  QrScannerPage.leader_of (page s) = Some leaderId ->
  scanType (page s) = st_unset ->
  rejects 0 (world s) = false ->
  exists s',
    QrScannerPage.handleScan participantId target s = (Ok true, s') /\
    unwritten s s' /\ rt s' = rt s /\
    calls (world s') =
      calls (world s) ++ [call_getParticipantCurrentActivity participantId] /\
    page s' = page s /\ comp s' = comp s.
Proof.
  intros Hev Hld Hst H0. unfold QrScannerPage.handleScan.
  rewrite (bind_ok get _ _ _ _ eq_refl), Hev, Hld.
  unfold try_catch.
  erewrite bind_ok
    by (rewrite getParticipantCurrentActivity_answer, H0; reflexivity).
  rewrite Hst. eexists. split; [reflexivity|].
  split; [apply unwritten_read|]. repeat split; reflexivity.
Qed.

Lemma unset_scan_type_answers_true_without_writing_witness :
  exists s',
    QrScannerPage.handleScan Camp.p1 (Some Camp.art)
      (Camp.scene st_unset Camp.art ∅ []) = (Ok true, s') /\
    logs (world s') = [] /\
    calls (world s') = [call_getParticipantCurrentActivity Camp.p1].
Proof.
  destruct (unset_scan_type_answers_true_without_writing
              (Camp.scene st_unset Camp.art ∅ [])
              Camp.p1 (Some Camp.art) Camp.ev1 Camp.leader)
    as (s' & Hrun & (Hlogs & _) & _ & Hcalls & _); try reflexivity.
  exists s'. split; [exact Hrun|]. split; [exact Hlogs | exact Hcalls].
Defined.

(** X6. Without an event id the commit does nothing at all: it answers [false]
    and the whole state, alerts and request record included, is untouched. *)
Theorem missing_event_blocks_commit s participantId target :
  QrScannerPage.event_of (page s) = None ->
  QrScannerPage.handleScan participantId target s = (Ok false, s).
Proof.
  intros Hev. unfold QrScannerPage.handleScan.
  rewrite (bind_ok get _ _ _ _ eq_refl), Hev. reflexivity.
Qed.

Lemma missing_event_blocks_commit_witness :
  let s := mounted (Camp.store ∅ [])
             (setScanType st_return
                {| eventId := Some []; user := Some (User.mk Camp.leader);
                   activities := [Camp.Art]; selectedActivityId := [];
                   scanType := st_unset; showModal := false;
                   modalMessage := [] |}) in
  QrScannerPage.handleScan Camp.p1 None s = (Ok false, s).
Proof.
  cbv zeta. apply missing_event_blocks_commit. reflexivity.
Defined.

(** * More properties of the scanner *)

(** ** Who writes to the store *)

Lemma unwritten_trans s1 s2 s3 :
  unwritten s1 s2 -> unwritten s2 s3 -> unwritten s1 s3.
Proof.
  unfold unwritten. intros (A1 & B1 & C1) (A2 & B2 & C2).
  repeat split; congruence.
Qed.

Lemma keeps_unwritten_request c :
  is_write c = false -> keeps unwritten (request c).
Proof.
  intros Hc s. unfold request, unwritten.
  destruct (faults (world s)) as [|[] fs]; simpl;
    rewrite List.filter_app; simpl; rewrite Hc, app_nil_r; auto.
Qed.

Lemma keeps_unwritten_modify f :
  (forall s, world (f s) = world s) -> keeps unwritten (modify f).
Proof. intros H s. unfold unwritten. simpl. rewrite H. auto. Qed.

Lemma keeps_unwritten_setTimeout a d :
  keeps unwritten (QrScanner.setTimeout a d).
Proof. intros s. repeat split. Qed.

Ltac unwritten_prim :=
  first
    [ apply keeps_unwritten_request; reflexivity
    | apply keeps_unwritten_setTimeout
    | solve [apply keeps_unwritten_modify; intros ?; reflexivity]
    | progress unfold
        QrScanner.resetScanner, QrScanner.resetIdleTimer,
        QrScanner.clearIdleTimer, QrScanner.clearTimeout,
        QrScanner.setIdleTimer, QrScanner.run_timer, QrScanner.handleError,
        QrScanner.handleScan, QrScanner.handleCancel,
        QrScanner.getParticipantInfo, QrScanner.play, QrScanner.setScanning,
        QrScanner.bumpScannerKey, QrScanner.setError,
        QrScanner.setConfirmModalOpen, QrScanner.setScannedParticipant,
        QrScanner.setCurrentActivity, QrScannerPage.getCurrentActivity,
        getParticipantByQrCode, getParticipantCurrentActivity, elapse,
        timeout ].

Lemma only_confirmation_writes_step e s :
  (e <> ev_confirm -> logs (world (step e s)) = logs (world s)) /\
  (e <> ev_confirm -> unwritten s (step e s)).
Proof.
  assert (e <> ev_confirm -> unwritten s (step e s)) as H.
  { intros He. unfold step.
    assert (keeps unwritten (handler e)) as Hk; [|apply Hk].
    destruct e; try congruence; unfold handler;
      keeps_walk unwritten unwritten_refl unwritten_trans unwritten_prim. }
  split; [|exact H]. intros He. apply H, He.
Qed.

(** X7. Only a confirmation writes.  Whatever the store answers, no other event
    (a camera read, a camera error, a cancel, the reset button, a timer)
    appends a log entry, changes a location or even requests a write; and
    apart from a camera read and a confirmation no event sends the store any
    request. *)
Theorem only_confirmation_writes e s :
  (e <> ev_confirm -> unwritten s (step e s)) /\
  (quiet_event e -> world (step e s) = world s).
Proof.
  split; [apply only_confirmation_writes_step | apply quiet_step_world].
Qed.

Lemma only_confirmation_writes_witness :
  let s := Camp.scene st_departure Camp.art ∅ [] in
  logs (world (step (ev_scan (Some (lit "QR-ANA"))) s)) = [] /\
  world (step ev_cancel s) = world s.
Proof.
  cbv zeta. split.
  - destruct (only_confirmation_writes (ev_scan (Some (lit "QR-ANA")))
                (Camp.scene st_departure Camp.art ∅ [])) as [H _].
    destruct H as (Hlogs & _); [discriminate | exact Hlogs].
  - destruct (only_confirmation_writes ev_cancel
                (Camp.scene st_departure Camp.art ∅ [])) as [_ H].
    exact (H I).
Defined.

(** *** The selections on the page are not the scanner's to change *)

Lemma same_selection_refl s : same_selection s s.
Proof. repeat split. Qed.

Lemma same_selection_trans s1 s2 s3 :
  same_selection s1 s2 -> same_selection s2 s3 -> same_selection s1 s3.
Proof.
  unfold same_selection.
  intros (A1 & B1 & C1 & D1 & E1) (A2 & B2 & C2 & D2 & E2).
  repeat split; congruence.
Qed.

Lemma keeps_selection_request c : keeps same_selection (request c).
Proof.
  intros s. unfold request.
  destruct (faults (world s)) as [|[] fs]; repeat split.
Qed.

Lemma keeps_selection_modify f :
  (forall s, same_selection s (f s)) -> keeps same_selection (modify f).
Proof. intros H s. apply H. Qed.

Lemma keeps_selection_setTimeout a d :
  keeps same_selection (QrScanner.setTimeout a d).
Proof. intros s. repeat split. Qed.

Ltac selection_prim :=
  first
    [ apply keeps_selection_request
    | apply keeps_selection_setTimeout
    | solve [apply keeps_selection_modify; intros ?; repeat split]
    | progress unfold
        QrScanner.resetScanner, QrScanner.resetIdleTimer,
        QrScanner.clearIdleTimer, QrScanner.clearTimeout,
        QrScanner.setIdleTimer, QrScanner.run_timer, QrScanner.handleError,
        QrScanner.handleScan, QrScanner.handleConfirm, QrScanner.handleCancel,
        QrScanner.getParticipantInfo, QrScanner.play, QrScanner.setScanning,
        QrScanner.bumpScannerKey, QrScanner.setError,
        QrScanner.setConfirmModalOpen, QrScanner.setScannedParticipant,
        QrScanner.setCurrentActivity,
        QrScannerPage.validateAndHandleScan, QrScannerPage.handleScan,
        QrScannerPage.getCurrentActivity, QrScannerPage.showMissingSelection,
        getParticipantByQrCode, getParticipantCurrentActivity,
        createActivityLog, updateParticipantLocation, alert, elapse,
        timeout ].

Lemma keeps_selection_handler e : keeps same_selection (handler e).
Proof.
  destruct e; unfold handler;
    keeps_walk same_selection same_selection_refl same_selection_trans
      selection_prim.
Qed.

Lemma same_selection_identity s s' :
  same_selection s s' ->
  QrScannerPage.event_of (page s') = QrScannerPage.event_of (page s) /\
  QrScannerPage.leader_of (page s') = QrScannerPage.leader_of (page s).
Proof.
  unfold QrScannerPage.event_of, QrScannerPage.leader_of.
  intros (-> & -> & _). auto.
Qed.

(** *** What a confirmation can append *)

(** One run of the commit appends at most one entry, for the participant it
    was called with, under the page's event and the signed-in leader. *)
Lemma handleScan_signs s pid target :
  let s' := snd (QrScannerPage.handleScan pid target s) in
  logs (world s') = logs (world s) \/
  exists entry,
    logs (world s') = logs (world s) ++ [entry] /\
    QrScannerPage.event_of (page s) = Some (ActivityLog.eventId entry) /\
    QrScannerPage.leader_of (page s) = Some (ActivityLog.leaderId entry) /\
    ActivityLog.participantId entry = pid.
Proof.
  cbv zeta. unfold QrScannerPage.handleScan.
  rewrite (bind_ok get _ _ _ _ eq_refl).
  destruct (QrScannerPage.event_of (page s)) as [ev|]; [|left; reflexivity].
  unfold try_catch.
  destruct (QrScannerPage.leader_of (page s)) as [leaderId|];
    [|left; reflexivity].
  destruct (getParticipantCurrentActivity_cases pid s) as [E|E];
    [rewrite (bind_ok _ _ _ _ _ E) | rewrite (bind_throw _ _ _ _ _ E)];
    [|left; reflexivity].
  destruct (scanType (page s));
    destruct (currentActivityOf (world s) pid) as [A|];
    try destruct (opt_str_eq (Some (Activity.id A)) target);
    try (left; reflexivity);
    write_cases; try (left; reflexivity);
    right; eexists; (split; [reflexivity|]); auto.
Qed.

Lemma validateAndHandleScan_signs s pid a :
  let s' := snd (QrScannerPage.validateAndHandleScan pid a s) in
  logs (world s') = logs (world s) \/
  exists entry,
    logs (world s') = logs (world s) ++ [entry] /\
    QrScannerPage.event_of (page s) = Some (ActivityLog.eventId entry) /\
    QrScannerPage.leader_of (page s) = Some (ActivityLog.leaderId entry) /\
    ActivityLog.participantId entry = pid.
Proof.
  cbv zeta. unfold QrScannerPage.validateAndHandleScan.
  rewrite (bind_ok get _ _ _ _ eq_refl).
  destruct (scanType (page s));
    [destruct (or_null (Some (selectedActivityId (page s))))|..];
    try apply handleScan_signs; left; reflexivity.
Qed.

(** What [handleConfirm] leaves of the state the commit returned: the modal
    is closed, the scanned participant and the activity are forgotten, and
    the post-confirm timer is scheduled. *)
Lemma handleConfirm_result s p :
  scannedParticipant (comp s) = Some p ->
  exists a s1,
    s1 = snd (QrScannerPage.validateAndHandleScan (Participant.id p) a s) /\
    step ev_confirm s =
    snd ((QrScanner.setConfirmModalOpen false ;;
          QrScanner.setScannedParticipant None ;;
          QrScanner.setCurrentActivity None ;;
          _ <- QrScanner.setTimeout t_post_confirm 1000 ;
          ret tt) s1).
Proof.
  intros Hp. unfold step, handler, QrScanner.handleConfirm.
  rewrite (bind_ok get _ _ _ _ eq_refl), Hp. cbv zeta.
  match goal with
  | |- context [QrScannerPage.validateAndHandleScan ?i ?a] =>
      exists a;
      destruct (validateAndHandleScan_never_throws i a s) as (b & s1 & E)
  end.
  exists s1. rewrite E. split; [reflexivity|].
  unfold try_catch. rewrite (bind_ok _ _ _ _ _ E). reflexivity.
Qed.

Lemma confirm_appends s :
  logs (world (step ev_confirm s)) = logs (world s) \/
  exists entry p,
    scannedParticipant (comp s) = Some p /\
    logs (world (step ev_confirm s)) = logs (world s) ++ [entry] /\
    QrScannerPage.event_of (page s) = Some (ActivityLog.eventId entry) /\
    QrScannerPage.leader_of (page s) = Some (ActivityLog.leaderId entry) /\
    ActivityLog.participantId entry = Participant.id p.
Proof.
  destruct (scannedParticipant (comp s)) as [p|] eqn:Hp.
  - destruct (handleConfirm_result s p Hp) as (a & s1 & -> & ->).
    change (logs (world (snd (_ ?x)))) with (logs (world x)).
    destruct (validateAndHandleScan_signs s (Participant.id p) a)
      as [H | (entry & H & He & Hl & Hi)]; [left; exact H|].
    right. exists entry, p. auto.
  - left. unfold step, handler, QrScanner.handleConfirm.
    rewrite (bind_ok get _ _ _ _ eq_refl), Hp. reflexivity.
Qed.

(** X8. The log is append-only, it grows by at most one entry per confirmation,
    and every entry the scanner appends carries the page's event id and the
    id of the signed-in leader. *)
Theorem log_grows_by_signed_entries es s :
  exists new,
    logs (world (run es s)) = logs (world s) ++ new /\
    (length new <= length (List.filter is_confirm es))%nat /\
    Forall (fun entry =>
              QrScannerPage.event_of (page s) =
                Some (ActivityLog.eventId entry) /\
              QrScannerPage.leader_of (page s) =
                Some (ActivityLog.leaderId entry)) new.
Proof.
  revert s. induction es as [|e es IH]; intros s.
  - exists []. rewrite app_nil_r. repeat split; [simpl; lia | constructor].
  - change (run (e :: es) s) with (run es (step e s)).
    destruct (IH (step e s)) as (new & Hlogs & Hlen & Hsig).
    destruct (same_selection_identity s (step e s)
                (keeps_selection_handler e s)) as [Hev Hld].
    rewrite Hev, Hld in Hsig.
    assert (Hstep :
      (logs (world (step e s)) = logs (world s)) \/
      (is_confirm e = true /\
       exists entry,
         logs (world (step e s)) = logs (world s) ++ [entry] /\
         QrScannerPage.event_of (page s) = Some (ActivityLog.eventId entry) /\
         QrScannerPage.leader_of (page s) =
           Some (ActivityLog.leaderId entry))).
    { destruct e; try (left;
        apply (proj1 (only_confirmation_writes_step _ s)); discriminate).
      destruct (confirm_appends s) as [H | (entry & p & _ & H & He & Hl & _)];
        [left; exact H | right; split; [reflexivity|]; exists entry; auto]. }
    destruct Hstep as [H | (Hc & entry & H & He & Hl)].
    + exists new. rewrite Hlogs, H. split; [reflexivity|].
      split; [|exact Hsig]. simpl. destruct (is_confirm e); simpl; lia.
    + exists (entry :: new). rewrite Hlogs, H, <- app_assoc.
      split; [reflexivity|]. simpl. rewrite Hc. simpl.
      split; [lia|]. constructor; auto.
Qed.

(** ** What a camera read leads to *)

(** Open the state and the vocabulary before a camera read is evaluated. *)
Ltac scan_open s :=
  destruct s as [w [nw nt pd al sd] pg [sc sk er cm sp ca it]];
  unfold refused, asked, calm, rejects, unwritten, same_selection in *;
  cbn [world rt page comp scanning pending now error sounds
       confirmModalOpen scannedParticipant currentActivity] in *.

(** Split on the store's two coming answers. *)
Ltac scan_answers w :=
  destruct (faults w) as [|[] [|[] ?]]; cbn [nth] in *; try discriminate.

(** Evaluate the read up to the participant lookup. *)
Ltac scan_enter E1 Htext :=
  js_eval_in E1; rewrite Htext in E1; js_eval_in E1;
  match type of E1 with
  | context [match ?it with Some _ => _ | None => _ end] => destruct it
  end;
  js_eval_in E1.

(** The cooldown and the reset fire, in that order. *)
Ltac scan_recover Hcalm :=
  let s3 := fresh "s3" in
  let E3 := fresh "E3" in
  remember (run _ _) as s3 eqn:E3;
  js_eval_in E3; fire_last_in E3 Hcalm; js_eval_in E3;
  fire_last_in E3 Hcalm; js_eval_in E3;
  subst s3.

Ltac scan_close :=
  js_eval;
  rewrite ?List.filter_app; cbn [List.filter is_write];
  rewrite ?app_nil_r;
  repeat split; try reflexivity; try lia.

(** X9. A badge that no participant of the event owns is refused with
    [Invalid QR code. Participant not found.]; the scanner recovers by
    itself. *)
Theorem unknown_badge_is_refused s text :
  scanning (comp s) = true -> text <> [] -> calm 3500 s ->
  rejects 0 (world s) = false ->
  participantByQrCode (world s) (trim text) (eventId (page s)) = None ->
  refused (lit "Invalid QR code. Participant not found.") s
    (step (ev_scan (Some text)) s).
Proof.
  scan_open s. intros -> Htext%truthy_nonempty Hcalm H0 Hp.
  unfold participantByQrCode in Hp.
  remember (step (ev_scan (Some text)) _) as s1 eqn:E1.
  scan_enter E1 Htext; scan_answers w; js_eval_in E1;
    unfold participantByQrCode in E1; js_eval_in E1;
    rewrite Hp in E1; js_eval_in E1; subst s1;
    scan_recover Hcalm; scan_close.
Qed.

Lemma unknown_badge_is_refused_witness :
  let s := Camp.scene st_return [] ∅ [] in
  error (comp (step (ev_scan (Some (lit "nope"))) s)) =
    Some (lit "Invalid QR code. Participant not found.") /\
  scanning (comp (run [ev_timeout; ev_timeout]
                    (step (ev_scan (Some (lit "nope"))) s))) = true.
Proof.
  cbv zeta.
  destruct (unknown_badge_is_refused (Camp.scene st_return [] ∅ [])
              (lit "nope")) as (_ & _ & _ & Herr & _ & _ & _ & Hsc & _).
  - reflexivity.
  - discriminate.
  - intros t [].
  - reflexivity.
  - vm_compute; reflexivity.
  - split; [exact Herr | exact Hsc].
Defined.

(** X10. When the store rejects the participant lookup, the read is refused with
    [Error processing QR code.] and the scanner recovers by itself; the
    lookup is the only request sent. *)
Theorem failed_lookup_is_refused s text :
  scanning (comp s) = true -> text <> [] -> calm 3500 s ->
  rejects 0 (world s) = true ->
  refused (lit "Error processing QR code.") s (step (ev_scan (Some text)) s) /\
  calls (world (step (ev_scan (Some text)) s)) =
    calls (world s) ++
      [call_getParticipantByQrCode (trim text) (eventId (page s))].
Proof.
  scan_open s. intros -> Htext%truthy_nonempty Hcalm H0.
  remember (step (ev_scan (Some text)) _) as s1 eqn:E1.
  scan_enter E1 Htext; scan_answers w; js_eval_in E1; subst s1;
    scan_recover Hcalm; scan_close.
Qed.

Lemma failed_lookup_is_refused_witness :
  let s := Camp.scene st_return [] Camp.at_art [true] in
  error (comp (step (ev_scan (Some (lit "QR-ANA"))) s)) =
    Some (lit "Error processing QR code.").
Proof.
  cbv zeta.
  destruct (failed_lookup_is_refused (Camp.scene st_return [] Camp.at_art [true])
              (lit "QR-ANA")) as ((_ & _ & _ & Herr & _) & _).
  - reflexivity.
  - discriminate.
  - intros t [].
  - reflexivity.
  - exact Herr.
Defined.

(** X11. A return scan of a participant whose current activity reads as none is
    refused with [<name> is already at camp.], whether the participant is
    nowhere or the read itself was rejected by the store. *)
Theorem return_from_nowhere_is_refused s text p :
  scanning (comp s) = true -> text <> [] -> calm 3500 s ->
  scanType (page s) = st_return ->
  rejects 0 (world s) = false ->
  participantByQrCode (world s) (trim text) (eventId (page s)) = Some p ->
  rejects 1 (world s) = true \/
  currentActivityOf (world s) (Participant.id p) = None ->
  refused (Participant.name p ++ lit " is already at camp.") s
    (step (ev_scan (Some text)) s).
Proof.
  scan_open s. intros -> Htext%truthy_nonempty Hcalm Hst H0 Hp Hnone.
  unfold participantByQrCode in Hp. unfold currentActivityOf in Hnone.
  remember (step (ev_scan (Some text)) _) as s1 eqn:E1.
  scan_enter E1 Htext; scan_answers w; js_eval_in E1;
    unfold participantByQrCode in E1; js_eval_in E1;
    rewrite Hp in E1; js_eval_in E1; rewrite Hst in E1; js_eval_in E1;
    unfold currentActivityOf in E1; js_eval_in E1;
    try (destruct Hnone as [Hnone | Hnone]; [discriminate|];
         rewrite Hnone in E1; js_eval_in E1);
    subst s1; scan_recover Hcalm; scan_close.
Qed.

Lemma return_from_nowhere_is_refused_witness :
  let s := Camp.scene st_return [] Camp.at_art [false; true] in
  error (comp (step (ev_scan (Some (lit "QR-ANA"))) s)) =
    Some (lit "Ana is already at camp.").
Proof.
  cbv zeta.
  destruct (return_from_nowhere_is_refused
              (Camp.scene st_return [] Camp.at_art [false; true])
              (lit "QR-ANA")
              (Participant.mk Camp.p1 (lit "Ana") (lit "QR-ANA")
                 (Some Camp.art)))
    as (_ & _ & _ & Herr & _).
  - reflexivity.
  - discriminate.
  - intros t [].
  - reflexivity.
  - reflexivity.
  - vm_compute; reflexivity.
  - left. reflexivity.
  - exact Herr.
Defined.

Lemma departure_scan_state s text p :
  scanning (comp s) = true -> text <> [] ->
  scanType (page s) = st_departure ->
  rejects 0 (world s) = false ->
  participantByQrCode (world s) (trim text) (eventId (page s)) = Some p ->
  let cur := if rejects 1 (world s) then None
             else currentActivityOf (world s) (Participant.id p) in
  (forall A, cur = Some A ->
     option_map Activity.id (QrScannerPage.selectedActivity (page s)) <>
       Some (Activity.id A)) ->
  let s1 := step (ev_scan (Some text)) s in
  asked p cur s s1 /\
  confirm_text s1 =
    Some match cur with
         | Some A =>
             Participant.name p ++ lit " is currently at " ++
             Activity.name A ++ lit ". Change to " ++
             template_name (QrScannerPage.selectedActivity (page s)) ++
             lit "?"
         | None =>
             lit "Register " ++ Participant.name p ++ lit " for " ++
             template_name (QrScannerPage.selectedActivity (page s)) ++
             lit "?"
         end /\
  page s1 = page s /\ world s1 = world (scan_reads text p s).
Proof.
  unfold scan_reads.
  scan_open s. intros -> Htext%truthy_nonempty Hst H0 Hp.
  unfold participantByQrCode in Hp.
  destruct (currentActivityOf w (Participant.id p)) as [A|] eqn:Hcur;
    unfold currentActivityOf in Hcur; cbv zeta; intros Hsel;
    remember (step (ev_scan (Some text)) _) as s1 eqn:E1;
    (scan_enter E1 Htext; js_eval; scan_answers w; js_eval_in E1;
     unfold participantByQrCode in E1; js_eval_in E1;
     rewrite Hp in E1; js_eval_in E1; rewrite Hst in E1; js_eval_in E1;
     unfold currentActivityOf in E1; js_eval_in E1;
     try (rewrite Hcur in E1; js_eval_in E1);
     try (rewrite (proj2 (opt_str_eq_false _ _)) in E1
            by (intros Heq; apply (Hsel A eq_refl); symmetry; exact Heq);
          js_eval_in E1);
     subst s1; unfold confirm_text; js_eval; rewrite ?Hst;
     rewrite ?List.filter_app; cbn [List.filter is_write];
     rewrite ?app_nil_r;
     repeat split; try reflexivity;
     try (intros t Ht; in_pending; auto)).
Qed.

(** X12. A departure scan asks for a confirmation unless the participant's
    current activity, as read at the scan, is the selected one.  A read that
    the store rejects counts as no activity.  The question names the
    participant and the selected class and, when an activity was read,
    that activity too. *)
Theorem departure_scan_asks s text p :
  scanning (comp s) = true -> text <> [] ->
  scanType (page s) = st_departure ->
  rejects 0 (world s) = false ->
  participantByQrCode (world s) (trim text) (eventId (page s)) = Some p ->
  let cur := if rejects 1 (world s) then None
             else currentActivityOf (world s) (Participant.id p) in
  (forall A, cur = Some A ->
     option_map Activity.id (QrScannerPage.selectedActivity (page s)) <>
       Some (Activity.id A)) ->
  let s1 := step (ev_scan (Some text)) s in
  asked p cur s s1 /\
  confirm_text s1 =
    Some match cur with
         | Some A =>
             Participant.name p ++ lit " is currently at " ++
             Activity.name A ++ lit ". Change to " ++
             template_name (QrScannerPage.selectedActivity (page s)) ++
             lit "?"
         | None =>
             lit "Register " ++ Participant.name p ++ lit " for " ++
             template_name (QrScannerPage.selectedActivity (page s)) ++
             lit "?"
         end.
Proof.
  intros Hsc Ht Hst H0 Hp cur Hsel s1.
  destruct (departure_scan_state s text p Hsc Ht Hst H0 Hp Hsel)
    as (Ha & Htext & _).
  split; assumption.
Qed.

Lemma departure_scan_asks_witness :
  let s := Camp.scene st_departure Camp.music Camp.at_art [] in
  let s1 := step (ev_scan (Some (lit "QR-ANA"))) s in
  confirmModalOpen (comp s1) = true /\
  confirm_text s1 = Some (lit "Ana is currently at Art. Change to Music?").
Proof.
  cbv zeta.
  destruct (departure_scan_asks
              (Camp.scene st_departure Camp.music Camp.at_art [])
              (lit "QR-ANA")
              (Participant.mk Camp.p1 (lit "Ana") (lit "QR-ANA")
                 (Some Camp.art)))
    as ((_ & _ & Hopen & _) & Htext).
  - reflexivity.
  - discriminate.
  - reflexivity.
  - reflexivity.
  - vm_compute; reflexivity.
  - intros A. vm_compute. intros [= <-]. discriminate.
  - split; [exact Hopen | exact Htext].
Defined.

Lemma return_scan_state s text p A :
  scanning (comp s) = true -> text <> [] ->
  scanType (page s) = st_return ->
  rejects 0 (world s) = false -> rejects 1 (world s) = false ->
  participantByQrCode (world s) (trim text) (eventId (page s)) = Some p ->
  currentActivityOf (world s) (Participant.id p) = Some A ->
  let s1 := step (ev_scan (Some text)) s in
  asked p (Some A) s s1 /\
  confirm_text s1 =
    Some (lit "Confirm " ++ Participant.name p ++
          lit " is returning to camp?") /\
  page s1 = page s /\ world s1 = world (scan_reads text p s).
Proof.
  unfold scan_reads.
  scan_open s. intros -> Htext%truthy_nonempty Hst H0 H1 Hp Hcur.
  unfold participantByQrCode in Hp. unfold currentActivityOf in Hcur.
  cbv zeta.
  remember (step (ev_scan (Some text)) _) as s1 eqn:E1.
  scan_enter E1 Htext; js_eval; scan_answers w; js_eval_in E1;
    unfold participantByQrCode in E1; js_eval_in E1;
    rewrite Hp in E1; js_eval_in E1; rewrite Hst in E1; js_eval_in E1;
    unfold currentActivityOf in E1; js_eval_in E1;
    rewrite Hcur in E1; js_eval_in E1;
    subst s1; unfold confirm_text; js_eval; rewrite ?Hst;
    rewrite ?List.filter_app; cbn [List.filter is_write];
    rewrite ?app_nil_r;
    repeat split; try reflexivity;
    intros t Ht; in_pending; auto.
Qed.

(** X13. A return scan of a participant who is at an activity asks for a
    confirmation: the modal opens with the activity read at the scan, and
    the question names the participant. *)
Theorem return_scan_asks s text p A :
  scanning (comp s) = true -> text <> [] ->
  scanType (page s) = st_return ->
  rejects 0 (world s) = false -> rejects 1 (world s) = false ->
  participantByQrCode (world s) (trim text) (eventId (page s)) = Some p ->
  currentActivityOf (world s) (Participant.id p) = Some A ->
  let s1 := step (ev_scan (Some text)) s in
  asked p (Some A) s s1 /\
  confirm_text s1 =
    Some (lit "Confirm " ++ Participant.name p ++
          lit " is returning to camp?").
Proof.
  intros Hsc Ht Hst H0 H1 Hp Hcur s1.
  destruct (return_scan_state s text p A Hsc Ht Hst H0 H1 Hp Hcur)
    as (Ha & Htext & _).
  split; assumption.
Qed.

Lemma return_scan_asks_witness :
  let s := Camp.scene st_return [] Camp.at_art [] in
  let s1 := step (ev_scan (Some (lit "QR-ANA"))) s in
  confirmModalOpen (comp s1) = true /\
  confirm_text s1 = Some (lit "Confirm Ana is returning to camp?").
Proof.
  cbv zeta.
  destruct (return_scan_asks (Camp.scene st_return [] Camp.at_art [])
              (lit "QR-ANA")
              (Participant.mk Camp.p1 (lit "Ana") (lit "QR-ANA")
                 (Some Camp.art))
              Camp.Art)
    as ((_ & _ & Hopen & _) & Htext).
  - reflexivity.
  - discriminate.
  - reflexivity.
  - reflexivity.
  - reflexivity.
  - vm_compute; reflexivity.
  - vm_compute; reflexivity.
  - split; [exact Hopen | exact Htext].
Defined.

(** ** Reads that are ignored, the idle timeout, camera errors *)

(** X14. A camera read without data, with an empty text, or arriving while
    decoding is off, restarts the idle timer and does nothing else: no
    request, no sound, no change to what the scanner shows. *)
Theorem ignored_read_only_restarts_idle_timer s data :
  data = None \/ data = Some [] \/ scanning (comp s) = false ->
  let s1 := step (ev_scan data) s in
  world s1 = world s /\ page s1 = page s /\
  now (rt s1) = now (rt s) /\ sounds (rt s1) = sounds (rt s) /\
  alerts (rt s1) = alerts (rt s) /\
  scanning (comp s1) = scanning (comp s) /\
  scannerKey (comp s1) = scannerKey (comp s) /\
  error (comp s1) = error (comp s) /\
  confirmModalOpen (comp s1) = confirmModalOpen (comp s) /\
  scannedParticipant (comp s1) = scannedParticipant (comp s) /\
  currentActivity (comp s1) = currentActivity (comp s) /\
  idleTimer (comp s1) = Some (nextTimer (rt s)) /\
  pending (rt s1) =
    pending (rt (snd (QrScanner.clearIdleTimer s))) ++
    [{| tid := nextTimer (rt s); due := now (rt s) + 60000;
        action := t_idle |}].
Proof.
  destruct s as [w [nw nt pd al sd] pg [sc sk er cm sp ca it]].
  cbn [comp scanning].
  intros [-> | [-> | ->]]; cbv zeta; js_eval;
    destruct it; js_eval;
    try (destruct data as [text|]; js_eval;
         [destruct (truthy text); js_eval|]);
    repeat split; reflexivity.
Qed.

Lemma ignored_read_only_restarts_idle_timer_witness :
  let s := step ev_camera_error (Camp.scene st_departure Camp.music ∅ []) in
  let s1 := step (ev_scan (Some (lit "QR-ANA"))) s in
  scanning (comp s) = false /\
  world s1 = world s /\ error (comp s1) = error (comp s) /\
  idleTimer (comp s1) = Some (nextTimer (rt s)).
Proof.
  cbv zeta. split; [reflexivity|].
  pose proof (ignored_read_only_restarts_idle_timer
                (step ev_camera_error
                   (Camp.scene st_departure Camp.music ∅ []))
                (Some (lit "QR-ANA")) (or_intror (or_intror eq_refl))) as H.
  cbv zeta in H.
  destruct H as (Hw & _ & _ & _ & _ & _ & _ & He & _ & _ & _ & Hi & _).
  repeat split; assumption.
Defined.

(** X15. When the idle timer fires, the scanner is rebuilt (the key goes up by
    one, decoding is off) and half a second later decoding is on again with
    a fresh idle timer.  Nothing else is touched: an open confirmation
    modal stays open with its participant, a shown error stays shown, the
    store is not contacted. *)
Theorem idle_timeout_rebuilds_scanner s t :
  earliest (pending (rt s)) = Some t ->
  action t = t_idle ->
  idleTimer (comp s) = Some (tid t) ->
  (forall t', In t' (pending (rt s)) -> tid t' <> tid t ->
              N.max (now (rt s)) (due t) + 500 < due t') ->
  let s1 := step ev_timeout s in
  let s2 := step ev_timeout s1 in
  now (rt s1) = N.max (now (rt s)) (due t) /\
  scanning (comp s1) = false /\
  scannerKey (comp s1) = scannerKey (comp s) + 1 /\
  now (rt s2) = N.max (now (rt s)) (due t) + 500 /\
  scanning (comp s2) = true /\
  scannerKey (comp s2) = scannerKey (comp s) + 1 /\
  In {| tid := Pos.succ (nextTimer (rt s));
        due := N.max (now (rt s)) (due t) + 500 + 60000;
        action := t_idle |} (pending (rt s2)) /\
  idleTimer (comp s2) = Some (Pos.succ (nextTimer (rt s))) /\
  confirmModalOpen (comp s2) = confirmModalOpen (comp s) /\
  scannedParticipant (comp s2) = scannedParticipant (comp s) /\
  currentActivity (comp s2) = currentActivity (comp s) /\
  error (comp s2) = error (comp s) /\
  sounds (rt s2) = sounds (rt s) /\
  world s2 = world s.
Proof.
  destruct s as [w [nw nt pd al sd] pg [sc sk er cm sp ca it]].
  destruct t as [h d a].
  cbn [rt comp pending now idleTimer action tid due nextTimer scannerKey
       confirmModalOpen scannedParticipant currentActivity error sounds
       world].
  intros He -> -> Hrest. cbv zeta.
  remember (step ev_timeout _) as s1 eqn:E1.
  js_eval_in E1. rewrite He in E1. js_eval_in E1.
  remember (step ev_timeout s1) as s2 eqn:E2.
  rewrite E1 in E2. js_eval_in E2.
  rewrite earliest_last in E2
    by (intros t' Ht'; in_pending; cbn [due];
        apply Hrest; [assumption|];
        match goal with
        | H : negb (_ =? h)%positive = true |- _ =>
            apply negb_true_iff, Pos.eqb_neq in H; exact H
        end).
  js_eval_in E2.
  subst s1 s2. js_eval.
  repeat split; try reflexivity; try lia.
  apply in_or_app. right. left. f_equal. lia.
Qed.

Lemma idle_timeout_rebuilds_scanner_witness :
  let s := Camp.awaiting st_departure Camp.music ∅ [] in
  let s2 := step ev_timeout (step ev_timeout s) in
  confirmModalOpen (comp s) = true /\
  scanning (comp s2) = true /\
  confirmModalOpen (comp s2) = true /\
  scannedParticipant (comp s2) = scannedParticipant (comp s).
Proof.
  cbv zeta. split; [reflexivity|].
  set (s := Camp.awaiting st_departure Camp.music ∅ []).
  assert (exists t, earliest (pending (rt s)) = Some t /\
                    action t = t_idle /\
                    idleTimer (comp s) = Some (tid t) /\
                    (forall t', In t' (pending (rt s)) ->
                                tid t' <> tid t ->
                                N.max (now (rt s)) (due t) + 500 < due t'))
    as (t & He & Ha & Hi & Hrest).
  { eexists. split; [vm_compute; reflexivity|].
    split; [reflexivity|]. split; [reflexivity|].
    intros t' Ht' Hne. vm_compute in Ht'.
    destruct Ht' as [<- | []]. exfalso. apply Hne. reflexivity. }
  pose proof (idle_timeout_rebuilds_scanner s t He Ha Hi Hrest) as H.
  cbv zeta in H.
  destruct H as (_ & _ & _ & _ & Hs & _ & _ & _ & Hm & Hp & _).
  split; [exact Hs|]. split; [rewrite Hm; reflexivity | exact Hp].
Defined.

(** X16. A camera error shows its message, plays the error sound and rebuilds
    the scanner; decoding is on again half a second later.  No timer is
    scheduled that would clear the message: it is still shown when decoding
    resumes, and everything pending then was pending before or is the idle
    timer. *)
Theorem camera_error_message_outlives_reset s :
  calm 500 s ->
  let msg := lit "Error accessing camera. Please check permissions." in
  let s1 := step ev_camera_error s in
  let s2 := step ev_timeout s1 in
  error (comp s1) = Some msg /\
  sounds (rt s1) = sounds (rt s) ++ [error_sound] /\
  scanning (comp s1) = false /\
  scannerKey (comp s1) = scannerKey (comp s) + 1 /\
  now (rt s2) = now (rt s) + 500 /\
  scanning (comp s2) = true /\
  error (comp s2) = Some msg /\
  world s2 = world s /\
  confirmModalOpen (comp s2) = confirmModalOpen (comp s) /\
  forall t, In t (pending (rt s2)) ->
            In t (pending (rt s)) \/ action t = t_idle.
Proof.
  destruct s as [w [nw nt pd al sd] pg [sc sk er cm sp ca it]].
  unfold calm.
  cbn [rt comp pending now error sounds scanning scannerKey world
       confirmModalOpen].
  intros Hcalm. cbv zeta.
  remember (step ev_camera_error _) as s1 eqn:E1.
  js_eval_in E1.
  remember (step ev_timeout s1) as s2 eqn:E2.
  rewrite E1 in E2.
  destruct it; js_eval_in E1; js_eval_in E2;
    fire_last_in E2 Hcalm; js_eval_in E2; subst s1 s2; js_eval;
    (repeat split; try reflexivity; try lia;
     intros t Ht; in_pending; auto).
Qed.

Lemma camera_error_message_outlives_reset_witness :
  let s := Camp.scene st_departure Camp.music ∅ [] in
  let s2 := step ev_timeout (step ev_camera_error s) in
  calm 500 s /\ scanning (comp s2) = true /\
  error (comp s2) =
    Some (lit "Error accessing camera. Please check permissions.").
Proof.
  cbv zeta.
  assert (calm 500 (Camp.scene st_departure Camp.music ∅ [])) as Hc
    by (intros t Ht; vm_compute in Ht; destruct Ht).
  split; [exact Hc|].
  pose proof (camera_error_message_outlives_reset _ Hc) as H.
  cbv zeta in H.
  destruct H as (_ & _ & _ & _ & _ & Hs & He & _).
  split; assumption.
Defined.

(** ** The confirmation *)

Lemma ui_untouched_refl s : ui_untouched s s.
Proof. repeat split. Qed.

Lemma ui_untouched_trans s1 s2 s3 :
  ui_untouched s1 s2 -> ui_untouched s2 s3 -> ui_untouched s1 s3.
Proof.
  unfold ui_untouched.
  intros (A1 & B1 & C1 & D1 & E1) (A2 & B2 & C2 & D2 & E2).
  repeat split; congruence.
Qed.

Lemma keeps_ui_request c : keeps ui_untouched (request c).
Proof.
  intros s. unfold request.
  destruct (faults (world s)) as [|[] fs]; repeat split.
Qed.

Lemma keeps_ui_modify f :
  (forall s, ui_untouched s (f s)) -> keeps ui_untouched (modify f).
Proof. intros H s. apply H. Qed.

Ltac ui_prim :=
  first
    [ apply keeps_ui_request
    | solve [apply keeps_ui_modify; intros ?; repeat split]
    | progress unfold
        QrScannerPage.validateAndHandleScan, QrScannerPage.handleScan,
        QrScannerPage.showMissingSelection,
        getParticipantCurrentActivity,
        createActivityLog, updateParticipantLocation, alert ].

(** The commit is the page's business: it leaves the component, its
    timers, the clock and the sounds alone. *)
Lemma validateAndHandleScan_ui participantId a :
  keeps ui_untouched (QrScannerPage.validateAndHandleScan participantId a).
Proof.
  keeps_walk ui_untouched ui_untouched_refl ui_untouched_trans ui_prim.
Qed.

(** The state a confirmation leaves, in terms of the state before it and of
    the world and the page the commit left. *)
Lemma handleConfirm_state s p :
  scannedParticipant (comp s) = Some p ->
  exists w' al' pg',
    step ev_confirm s =
    {| world := w';
       rt := {| now := now (rt s);
                nextTimer := Pos.succ (nextTimer (rt s));
                pending := pending (rt s) ++
                  [{| tid := nextTimer (rt s); due := now (rt s) + 1000;
                      action := t_post_confirm |}];
                alerts := al'; sounds := sounds (rt s) |};
       page := pg';
       comp := {| scanning := scanning (comp s);
                  scannerKey := scannerKey (comp s);
                  error := error (comp s);
                  confirmModalOpen := false;
                  scannedParticipant := None;
                  currentActivity := None;
                  idleTimer := idleTimer (comp s) |} |}.
Proof.
  intros Hp.
  destruct (handleConfirm_result s p Hp) as (a & sv & Esv & ->).
  pose proof (validateAndHandleScan_ui (Participant.id p) a s) as Hui.
  rewrite <- Esv in Hui. clear Esv.
  destruct sv as [w' [nw' nt' pd' al' sd'] pg' c'].
  unfold ui_untouched in Hui. cbn [comp rt now nextTimer pending sounds] in Hui.
  destruct Hui as (-> & -> & -> & -> & ->).
  exists w', al', pg'. reflexivity.
Qed.

Lemma confirm_without_participant s :
  scannedParticipant (comp s) = None -> step ev_confirm s = s.
Proof.
  intros Hp. unfold step, handler, QrScanner.handleConfirm.
  rewrite (bind_ok get _ _ _ _ eq_refl), Hp. reflexivity.
Qed.

(** X17. Whatever the commit answers (written, refused by the validation,
    refused with an alert, or failed at the store), a confirmation takes
    one path: the modal closes, the participant and the activity are
    forgotten, no error is set and no sound is played, and the scanner is
    decoding again 1.5 s later.  Between the confirmation and then nothing
    more reaches the store. *)
Theorem confirmation_always_closes_and_rearms s p :
  scannedParticipant (comp s) = Some p -> calm 1500 s ->
  let s1 := step ev_confirm s in
  let s3 := run [ev_timeout; ev_timeout] s1 in
  confirmModalOpen (comp s1) = false /\
  scannedParticipant (comp s1) = None /\
  currentActivity (comp s1) = None /\
  error (comp s1) = error (comp s) /\
  sounds (rt s1) = sounds (rt s) /\
  pending (rt s1) =
    pending (rt s) ++
    [{| tid := nextTimer (rt s); due := now (rt s) + 1000;
        action := t_post_confirm |}] /\
  now (rt s3) = now (rt s) + 1500 /\
  scanning (comp s3) = true /\
  error (comp s3) = error (comp s) /\
  world s3 = world s1.
Proof.
  intros Hp Hcalm. cbv zeta.
  destruct (handleConfirm_state s p Hp) as (w' & al' & pg' & ->).
  clear Hp.
  destruct s as [w [nw nt pd al sd] pg [sc sk er cm sp ca it]].
  unfold calm in Hcalm.
  cbn [rt comp pending now nextTimer sounds error scanning scannerKey
       idleTimer world confirmModalOpen scannedParticipant currentActivity]
    in *.
  remember (run _ _) as s3 eqn:E3.
  js_eval_in E3. fire_last_in E3 Hcalm. js_eval_in E3.
  destruct it; js_eval_in E3; fire_last_in E3 Hcalm; js_eval_in E3;
    subst s3; js_eval; repeat split; try reflexivity; lia.
Qed.

Lemma confirmation_always_closes_and_rearms_witness :
  let s := Camp.awaiting st_departure Camp.art ∅
             [false; false; false; true] in
  let s1 := step ev_confirm s in
  logs (world s1) = [] /\
  confirmModalOpen (comp s1) = false /\ error (comp s1) = None /\
  scanning (comp (run [ev_timeout; ev_timeout] s1)) = true.
Proof.
  cbv zeta. split; [vm_compute; reflexivity|].
  set (s := Camp.awaiting st_departure Camp.art ∅
              [false; false; false; true]).
  assert (exists p, scannedParticipant (comp s) = Some p) as [p Hp]
    by (eexists; vm_compute; reflexivity).
  assert (calm 1500 s) as Hc.
  { intros t Ht. vm_compute in Ht. destruct Ht as [<- | []].
    vm_compute. reflexivity. }
  pose proof (confirmation_always_closes_and_rearms s p Hp Hc) as H.
  cbv zeta in H.
  destruct H as (Hm & _ & _ & He & _ & _ & _ & Hs & _).
  split; [exact Hm|]. split; [rewrite He; reflexivity | exact Hs].
Defined.

(** X18. Once a confirmation or a cancel has run, the participant is forgotten
    and a further confirmation does nothing at all: no request, no timer,
    no change. *)
Theorem confirm_after_completion_does_nothing s e :
  e = ev_confirm \/ e = ev_cancel ->
  step ev_confirm (step e s) = step e s.
Proof.
  intros [-> | ->].
  - destruct (scannedParticipant (comp s)) as [p|] eqn:Hp.
    + destruct (handleConfirm_state s p Hp) as (w' & al' & pg' & ->).
      apply confirm_without_participant. reflexivity.
    + rewrite (confirm_without_participant s Hp).
      apply confirm_without_participant, Hp.
  - apply confirm_without_participant. reflexivity.
Qed.

Lemma confirm_after_completion_does_nothing_witness :
  let s := step ev_confirm (Camp.awaiting st_departure Camp.art ∅ []) in
  logs (world s) <> [] /\ step ev_confirm s = s.
Proof.
  cbv zeta. split; [vm_compute; discriminate|].
  apply (confirm_after_completion_does_nothing
           (Camp.awaiting st_departure Camp.art ∅ []) ev_confirm).
  left. reflexivity.
Defined.

(** ** The [catch] block of the confirmation never runs *)

Lemma includes_app a m b : includes (a ++ m ++ b) m = true.
Proof.
  induction a as [|x a IH]; simpl.
  - apply includes_prefix.
  - rewrite IH. apply orb_true_r.
Qed.

Lemma not_infix m a b l : includes l m = false -> a ++ m ++ b <> l.
Proof. intros H <-. rewrite includes_app in H. discriminate. Qed.

Lemma not_suffix m a l : includes l m = false -> a ++ m <> l.
Proof.
  intros H E. apply (not_infix m a [] l H). rewrite app_nil_r. exact E.
Qed.

Lemma stays_clear_refl s : stays_clear s s.
Proof. exact (fun H => H). Qed.

Lemma stays_clear_trans s1 s2 s3 :
  stays_clear s1 s2 -> stays_clear s2 s3 -> stays_clear s1 s3.
Proof. unfold stays_clear. auto. Qed.

Lemma keeps_clear_request c : keeps stays_clear (request c).
Proof.
  intros s. unfold request.
  destruct (faults (world s)) as [|[] fs]; exact (fun H => H).
Qed.

Lemma keeps_clear_setTimeout a d :
  a <> t_err_confirm -> keeps stays_clear (QrScanner.setTimeout a d).
Proof.
  intros Ha s [Hp He]. split; [|exact He].
  cbn. intros t [Ht | [<- | []]]%in_app_or; [apply Hp, Ht | exact Ha].
Qed.

Lemma keeps_clear_setError e :
  e <> Some confirm_error_text -> keeps stays_clear (QrScanner.setError e).
Proof. intros He s [Hp _]. split; [exact Hp | exact He]. Qed.

(** A step that schedules nothing and leaves the message alone. *)
Lemma keeps_clear_modify f :
  (forall s, (forall t, In t (pending (rt (f s))) -> In t (pending (rt s))) /\
             error (comp (f s)) = error (comp s)) ->
  keeps stays_clear (modify f).
Proof.
  intros H s [Hp He]. destruct (H s) as [Hin Herr].
  split; [|cbn; rewrite Herr; exact He].
  intros t Ht. apply Hp, Hin, Ht.
Qed.

Ltac clear_prim :=
  first
    [ apply keeps_clear_request
    | apply keeps_clear_setTimeout; discriminate
    | apply keeps_clear_setError;
      solve [ discriminate
            | intros H; vm_compute in H; discriminate H
            | intros [= H]; revert H; apply not_infix; vm_compute;
              reflexivity
            | intros [= H]; revert H; apply not_suffix; vm_compute;
              reflexivity ]
    | solve [ apply keeps_clear_modify; intros ?;
              split; [cbn; let H := fresh in
                           intros ? H;
                           first [exact H
                                 | apply filter_In in H; exact (proj1 H)]
                     | reflexivity] ]
    | progress unfold
        QrScanner.resetScanner, QrScanner.resetIdleTimer,
        QrScanner.clearIdleTimer, QrScanner.clearTimeout,
        QrScanner.setIdleTimer, QrScanner.run_timer, QrScanner.handleError,
        QrScanner.handleScan, QrScanner.handleCancel,
        QrScanner.getParticipantInfo, QrScanner.play, QrScanner.setScanning,
        QrScanner.bumpScannerKey,
        QrScanner.setConfirmModalOpen, QrScanner.setScannedParticipant,
        QrScanner.setCurrentActivity, QrScannerPage.getCurrentActivity,
        getParticipantByQrCode, getParticipantCurrentActivity, elapse,
        timeout ].

Lemma stays_clear_step e s : stays_clear s (step e s).
Proof.
  assert (e = ev_confirm \/ e <> ev_confirm) as [-> | He]
    by (destruct e; auto; right; discriminate).
  - destruct (scannedParticipant (comp s)) as [p|] eqn:Hp.
    + destruct (handleConfirm_state s p Hp) as (w' & al' & pg' & ->).
      intros [Hpd Herr]. split; [|exact Herr].
      cbn. intros t [Ht | [<- | []]]%in_app_or;
        [apply Hpd, Ht | discriminate].
    + rewrite (confirm_without_participant s Hp). exact (fun H => H).
  - unfold step.
    assert (keeps stays_clear (handler e)) as Hk; [|apply Hk].
    destruct e; try congruence; unfold handler;
      keeps_walk stays_clear stays_clear_refl stays_clear_trans clear_prim.
Qed.

Lemma stays_clear_run es s : stays_clear s (run es s).
Proof.
  revert s. induction es as [|e es IH]; intros s; [exact (fun H => H)|].
  change (run (e :: es) s) with (run es (step e s)).
  eapply stays_clear_trans; [apply stays_clear_step | apply IH].
Qed.

(** X19. The [catch] block of [handleConfirm] is dead code.  In no state the
    scanner can reach from its mount, whatever the events and whatever the
    store answers, is the 3 s cooldown of that block pending or its message
    [Error updating participant activity.] shown. *)
Theorem confirm_error_path_is_dead es w pg :
  no_confirm_error (run es (mounted w pg)).
Proof.
  apply stays_clear_run. split; [intros t [] | discriminate].
Qed.

(** ** A scan and its confirmation, end to end *)

Lemma selectedActivity_id p a :
  QrScannerPage.selectedActivity p = Some a ->
  Activity.id a = selectedActivityId p.
Proof.
  unfold QrScannerPage.selectedActivity. intros H.
  apply find_some in H as [_ H].
  unfold str_eq in H. apply bool_decide_eq_true in H. exact H.
Qed.

Lemma handleConfirm_world s p :
  scannedParticipant (comp s) = Some p ->
  exists a,
    world (step ev_confirm s) =
    world (snd (QrScannerPage.validateAndHandleScan (Participant.id p) a s)).
Proof.
  intros Hp. destruct (handleConfirm_result s p Hp) as (a & sv & -> & ->).
  exists a. reflexivity.
Qed.

(** The commit of a complete selection on a store that accepts, from the
    state a scan left. *)
Lemma commit_after_scan s s1 text p a ev lid entry loc :
  ready s ev lid ->
  page s1 = page s -> world s1 = world (scan_reads text p s) ->
  QrScannerPage.validateAndHandleScan (Participant.id p) a s1 =
    QrScannerPage.handleScan (Participant.id p)
      (or_null (Some (selectedActivityId (page s)))) s1 ->
  resolution (scanType (page s))
    (currentActivityOf (world s) (Participant.id p))
    (or_null (Some (selectedActivityId (page s)))) ev (Participant.id p) lid
    = Some (entry, loc) ->
  let w2 :=
    world (snd (QrScannerPage.validateAndHandleScan (Participant.id p) a s1))
  in
  logs w2 = logs (world s) ++ [entry] /\
  currentActivityId w2 =
    match loc with
    | Some b => <[Participant.id p := b]> (currentActivityId (world s))
    | None => delete (Participant.id p) (currentActivityId (world s))
    end.
Proof.
  intros (Hev & Hld & Hacc) Hpage Hworld -> Hres. cbv zeta.
  assert (forall n, rejects n (world s1) = false) as Hrej.
  { intros n. rewrite Hworld. unfold scan_reads.
    rewrite !rejects_requested. apply accepting_rejects, Hacc. }
  erewrite handleScan_resolved; cycle 1.
  - rewrite Hpage. exact Hev.
  - rewrite Hpage. exact Hld.
  - apply Hrej.
  - rewrite Hpage, Hworld. exact Hres.
  - rewrite !Hrej. cbn [snd].
    destruct (committed_world ev (Participant.id p) loc entry s1)
      as (-> & -> & _).
    rewrite Hworld. split; reflexivity.
Qed.

(** X20. A departure, end to end.  The leader is signed in, a class is selected,
    the store accepts, the badge is a participant's and the participant is
    not at the selected class.  Then the scan followed by the confirmation
    appends exactly one entry (a [departure] when the participant was
    nowhere, a [change] from the activity they were at) and puts the
    participant at the selected class.  The class is taken from the
    selection as it is: it need not be one of the listed classes. *)
Theorem scan_then_confirm_registers_departure s text p ev lid :
  scanning (comp s) = true -> text <> [] ->
  scanType (page s) = st_departure ->
  selectedActivityId (page s) <> [] ->
  ready s ev lid ->
  participantByQrCode (world s) (trim text) (eventId (page s)) = Some p ->
  let B := selectedActivityId (page s) in
  let cur := currentActivityOf (world s) (Participant.id p) in
  (forall A, cur = Some A -> Activity.id A <> B) ->
  let s2 := run [ev_scan (Some text); ev_confirm] s in
  logs (world s2) =
    logs (world s) ++
    [ActivityLog.mk ev (Participant.id p) (Some B)
       (option_map Activity.id cur) lid
       (match cur with Some _ => change | None => departure end)] /\
  currentActivityId (world s2) =
    <[Participant.id p := B]> (currentActivityId (world s)).
Proof.
  intros Hsc Htext Hst HB Hready Hp B cur Hcur s2.
  pose proof Hready as (Hev & Hld & Hacc).
  assert (forall n, rejects n (world s) = false) as Hrej
    by (intros n; apply accepting_rejects, Hacc).
  assert (or_null (Some B) = Some B) as HorB.
  { unfold or_null. destruct (truthy B) eqn:E; [reflexivity|].
    exfalso. apply HB. fold B. destruct B; [reflexivity | discriminate]. }
  destruct (departure_scan_state s text p Hsc Htext Hst (Hrej 0%nat) Hp)
    as (Hasked & _ & Hpage & Hworld).
  { cbv zeta. rewrite Hrej. intros A HA Heq.
    destruct (QrScannerPage.selectedActivity (page s)) as [a|] eqn:Ha;
      [|discriminate].
    apply selectedActivity_id in Ha. injection Heq as Heq.
    apply (Hcur A HA). fold B in Ha. congruence. }
  destruct Hasked as (_ & _ & _ & Hsp & _).
  subst s2.
  change (run _ s) with (step ev_confirm (step (ev_scan (Some text)) s)).
  set (s1 := step (ev_scan (Some text)) s) in *.
  destruct (handleConfirm_world s1 p Hsp) as (a & ->).
  refine (commit_after_scan s s1 text p a ev lid _ (Some B) Hready Hpage
            Hworld _ _).
  - unfold QrScannerPage.validateAndHandleScan.
    rewrite (bind_ok get _ _ _ _ eq_refl). cbv zeta.
    rewrite Hpage, Hst. fold B. rewrite HorB. reflexivity.
  - rewrite Hst. fold B cur. rewrite HorB. unfold resolution.
    destruct cur as [A|] eqn:E; [|reflexivity].
    rewrite (proj2 (opt_str_eq_false _ _))
      by (intros [= H]; exact (Hcur A eq_refl H)).
    reflexivity.
Qed.

Lemma scan_then_confirm_registers_departure_witness :
  let s := Camp.scene st_departure Camp.music Camp.at_art [] in
  let s2 := run [ev_scan (Some (lit "  QR-ANA ")); ev_confirm] s in
  logs (world s2) =
    [ActivityLog.mk Camp.ev1 Camp.p1 (Some Camp.music) (Some Camp.art)
       Camp.leader change] /\
  currentActivityId (world s2) !! Camp.p1 = Some Camp.music.
Proof.
  cbv zeta.
  set (s := Camp.scene st_departure Camp.music Camp.at_art []).
  assert (exists p,
            participantByQrCode (world s) (trim (lit "  QR-ANA "))
              (eventId (page s)) = Some p /\ Participant.id p = Camp.p1)
    as (p & Hp & Hid) by (eexists; split; vm_compute; reflexivity).
  destruct (scan_then_confirm_registers_departure s (lit "  QR-ANA ") p
              Camp.ev1 Camp.leader) as [Hl Hc].
  - reflexivity.
  - discriminate.
  - reflexivity.
  - discriminate.
  - repeat split; vm_compute; try reflexivity. constructor.
  - exact Hp.
  - rewrite Hid. intros A HA. vm_compute in HA. injection HA as <-.
    vm_compute. discriminate.
  - rewrite Hl, Hc, Hid. split; vm_compute; reflexivity.
Defined.

(** X21. A return, end to end.  The leader is signed in, the store accepts, the
    badge is a participant's and the participant is at an activity.  Then
    the scan followed by the confirmation appends exactly one [return]
    entry naming that activity and clears the participant's location,
    whatever class is selected on the page. *)
Theorem scan_then_confirm_registers_return s text p ev lid A :
  scanning (comp s) = true -> text <> [] ->
  scanType (page s) = st_return ->
  ready s ev lid ->
  participantByQrCode (world s) (trim text) (eventId (page s)) = Some p ->
  currentActivityOf (world s) (Participant.id p) = Some A ->
  let s2 := run [ev_scan (Some text); ev_confirm] s in
  logs (world s2) =
    logs (world s) ++
    [ActivityLog.mk ev (Participant.id p) (Some (Activity.id A)) None lid
       return_] /\
  currentActivityId (world s2) =
    delete (Participant.id p) (currentActivityId (world s)).
Proof.
  intros Hsc Htext Hst Hready Hp Hcur s2.
  pose proof Hready as (Hev & Hld & Hacc).
  assert (forall n, rejects n (world s) = false) as Hrej
    by (intros n; apply accepting_rejects, Hacc).
  destruct (return_scan_state s text p A Hsc Htext Hst (Hrej 0%nat)
              (Hrej 1%nat) Hp Hcur) as (Hasked & _ & Hpage & Hworld).
  destruct Hasked as (_ & _ & _ & Hsp & _).
  subst s2.
  change (run _ s) with (step ev_confirm (step (ev_scan (Some text)) s)).
  set (s1 := step (ev_scan (Some text)) s) in *.
  destruct (handleConfirm_world s1 p Hsp) as (a & ->).
  refine (commit_after_scan s s1 text p a ev lid _ None Hready Hpage
            Hworld _ _).
  - unfold QrScannerPage.validateAndHandleScan.
    rewrite (bind_ok get _ _ _ _ eq_refl). cbv zeta.
    rewrite Hpage, Hst. reflexivity.
  - rewrite Hst, Hcur. reflexivity.
Qed.

Lemma scan_then_confirm_registers_return_witness :
  let s := Camp.scene st_return [] Camp.at_art [] in
  let s2 := run [ev_scan (Some (lit "QR-ANA")); ev_confirm] s in
  logs (world s2) =
    [ActivityLog.mk Camp.ev1 Camp.p1 (Some Camp.art) None Camp.leader
       return_] /\
  currentActivityId (world s2) !! Camp.p1 = None.
Proof.
  cbv zeta.
  set (s := Camp.scene st_return [] Camp.at_art []).
  assert (exists p,
            participantByQrCode (world s) (trim (lit "QR-ANA"))
              (eventId (page s)) = Some p /\ Participant.id p = Camp.p1)
    as (p & Hp & Hid) by (eexists; split; vm_compute; reflexivity).
  destruct (scan_then_confirm_registers_return s (lit "QR-ANA") p
              Camp.ev1 Camp.leader Camp.Art) as [Hl Hc].
  - reflexivity.
  - discriminate.
  - reflexivity.
  - repeat split; vm_compute; try reflexivity. constructor.
  - exact Hp.
  - rewrite Hid. vm_compute. reflexivity.
  - rewrite Hl, Hc, Hid. split; vm_compute; reflexivity.
Defined.

(** ** Edge cases of the read and of the selection *)

(** X22. A text of white space only is not ignored the way the empty text is:
    it passes the guard, and the store is asked for the participant whose
    code is the empty string. *)
Theorem blank_text_is_looked_up_as_empty_code s t :
  t <> [] -> Forall (fun x => is_white_space x = true) t ->
  scanning (comp s) = true ->
  exists rest,
    calls (world (step (ev_scan (Some t)) s)) =
    calls (world s) ++
      call_getParticipantByQrCode [] (eventId (page s)) :: rest.
Proof.
  intros Ht Hws Hsc.
  assert (trim t = []) as E.
  { rewrite (trim_surrounded [] t); [reflexivity|].
    exists t, []. split; [exact Hws|]. split; [constructor|].
    rewrite app_nil_r. reflexivity. }
  rewrite <- E. apply handleScan_first_request; assumption.
Qed.

Lemma blank_text_is_looked_up_as_empty_code_witness :
  calls (world (step (ev_scan (Some (lit "  ")))
                  (Camp.scene st_return [] ∅ []))) =
  [call_getParticipantByQrCode [] (Some Camp.ev1)].
Proof.
  destruct (blank_text_is_looked_up_as_empty_code
              (Camp.scene st_return [] ∅ []) (lit "  ")) as (rest & H).
  - discriminate.
  - repeat constructor.
  - reflexivity.
  - vm_compute. reflexivity.
Defined.

(** X23. A class picked from the class select is the class both sides work
    with: the activity the page hands to the scanner (for its titles,
    questions and its already-there check) has the picked id, and the
    commit's target is the picked id. *)
Theorem picked_class_is_shared_by_scanner_and_commit p v :
  In v (class_options p) -> v <> [] ->
  let p' := setSelectedActivityId v p in
  option_map Activity.id (QrScannerPage.selectedActivity p') = Some v /\
  or_null (Some (selectedActivityId p')) = Some v.
Proof.
  intros Hin Hv. cbv zeta. split.
  - destruct Hin as [E | Hin]; [congruence|].
    apply in_map_iff in Hin as (a & Ha & Hin).
    unfold QrScannerPage.selectedActivity. cbn [selectedActivityId activities
      setSelectedActivityId].
    destruct (find _ (activities p)) as [a'|] eqn:Ef.
    + apply find_some in Ef as [_ Ef]. unfold str_eq in Ef.
      apply bool_decide_eq_true in Ef. simpl. congruence.
    + exfalso. apply (find_none _ _ Ef) in Hin.
      unfold str_eq in Hin. apply bool_decide_eq_false in Hin.
      apply Hin, Ha.
  - unfold or_null. cbn [selectedActivityId setSelectedActivityId].
    rewrite truthy_nonempty by exact Hv. reflexivity.
Qed.

Lemma picked_class_is_shared_by_scanner_and_commit_witness :
  let p' := setSelectedActivityId Camp.music
              (Camp.leader_page st_departure []) in
  In Camp.music (class_options (Camp.leader_page st_departure [])) /\
  option_map Activity.id (QrScannerPage.selectedActivity p') =
    Some Camp.music.
Proof.
  cbv zeta.
  assert (In Camp.music (class_options (Camp.leader_page st_departure [])))
    as Hin by (vm_compute; auto).
  split; [exact Hin|].
  apply (picked_class_is_shared_by_scanner_and_commit
           (Camp.leader_page st_departure []) Camp.music Hin).
  discriminate.
Defined.

(** ** Leaving the page *)

(** X24. The cleanup of the mount effect cancels the idle timer and no other
    timer: in every state the scanner can reach, what is pending after the
    cleanup is what was pending before, less the idle timer.  A cooldown, a
    re-arm or a post-confirm timer scheduled before the scanner was
    unmounted still fires. *)
Theorem cleanup_cancels_only_the_idle_timer es w pg :
  let s := run es (mounted w pg) in
  pending (rt (snd (unmount_timers s))) =
  List.filter (fun t => negb (is_idle t)) (pending (rt s)).
Proof.
  cbv zeta.
  pose proof (tidy_run es _ (tidy_mounted w pg)) as Ht.
  remember (run es (mounted w pg)) as s eqn:E. clear E.
  destruct Ht as (_ & _ & Hidle & _ & Href).
  destruct s as [w' [nw nt pd al sd] pg' [sc sk er cm sp ca it]].
  cbn [rt comp pending idleTimer] in *.
  unfold unmount_timers. destruct it as [h|]; js_eval.
  - apply filter_ext_in. intros t Hin. f_equal. unfold is_idle.
    destruct (Pos.eqb_spec (tid t) h) as [<- | Hne].
    + rewrite (Href t Hin eq_refl). reflexivity.
    + destruct (action t) eqn:Ea; try reflexivity.
      exfalso. apply Hne. specialize (Hidle t Hin Ea). congruence.
  - symmetry. apply forallb_filter_id. apply forallb_forall.
    intros t Hin. unfold is_idle.
    destruct (action t) eqn:Ea; try reflexivity.
    specialize (Hidle t Hin Ea). discriminate.
Qed.

(** ** The page's own participant lookup *)

Lemma unwritten_requested c s :
  is_write c = false -> unwritten s (requested c s).
Proof.
  intros Hc. unfold unwritten, requested; simpl.
  rewrite List.filter_app; simpl. rewrite Hc, app_nil_r. auto.
Qed.

Lemma guarded_lookup_answer qr ev s :
  try_catch (getParticipantByQrCode qr ev) (fun _ => ret None) s =
  (Ok (if rejects 0 (world s) then None
       else participantByQrCode (world s) qr ev),
   requested (call_getParticipantByQrCode qr ev) s).
Proof.
  unfold try_catch, getParticipantByQrCode, bind.
  rewrite request_answer. destruct (rejects 0 (world s)); reflexivity.
Qed.

(** X25. [getParticipantInfo] of the page never throws and never writes.  With
    no event, no scan type, or a departure without a class it answers
    [null] without asking the store; a lookup the store rejects is [null]
    too. *)
Theorem page_lookup_never_throws participantId s :
  exists r s',
    QrScannerPage.getParticipantInfo participantId s = (Ok r, s') /\
    unwritten s s' /\ rt s' = rt s /\ page s' = page s /\ comp s' = comp s /\
    (QrScannerPage.event_of (page s) = None \/
     scanType (page s) = st_unset \/
     (scanType (page s) = st_departure /\ selectedActivityId (page s) = []) ->
     r = None /\ s' = s) /\
    (rejects 0 (world s) = true -> r = None).
Proof.
  unfold QrScannerPage.getParticipantInfo.
  rewrite (bind_ok get _ _ _ _ eq_refl).
  assert (exists r' s',
            (ret None : M (option Participant.t)) s = (Ok r', s') /\
            unwritten s s' /\
            rt s' = rt s /\ page s' = page s /\ comp s' = comp s /\
            (QrScannerPage.event_of (page s) = None \/
             scanType (page s) = st_unset \/
             (scanType (page s) = st_departure /\
              selectedActivityId (page s) = []) ->
             r' = None /\ s' = s) /\
            (rejects 0 (world s) = true -> r' = None)) as Hnull
    by (exists None, s; repeat split; reflexivity).
  destruct (QrScannerPage.event_of (page s)) as [ev|] eqn:Hev;
    [|exact Hnull].
  destruct (scanType (page s)) eqn:Hst; [| |exact Hnull].
  - destruct (truthy (selectedActivityId (page s))) eqn:Htr; cbn [negb];
      [|exact Hnull].
    rewrite guarded_lookup_answer. eexists; eexists.
    split; [reflexivity|].
    split; [apply unwritten_requested; reflexivity|].
    repeat split; try reflexivity.
    + destruct H as [H | [H | [_ H]]]; try discriminate.
      rewrite H in Htr. discriminate.
    + destruct H as [H | [H | [_ H]]]; try discriminate.
      rewrite H in Htr. discriminate.
    + intros ->. reflexivity.
  - rewrite guarded_lookup_answer. eexists; eexists.
    split; [reflexivity|].
    split; [apply unwritten_requested; reflexivity|].
    repeat split; try reflexivity.
    + destruct H as [H | [H | [H _]]]; discriminate.
    + destruct H as [H | [H | [H _]]]; discriminate.
    + intros ->. reflexivity.
Qed.

Lemma page_lookup_never_throws_witness :
  fst (QrScannerPage.getParticipantInfo (lit "QR-ANA")
         (Camp.scene st_return [] ∅ [true])) = Ok None.
Proof.
  destruct (page_lookup_never_throws (lit "QR-ANA")
              (Camp.scene st_return [] ∅ [true]))
    as (r & s' & E & _ & _ & _ & _ & _ & Hr).
  rewrite E, (Hr eq_refl). reflexivity.
Defined.

(** ** The scanner always comes back *)

Lemma filter_filter_le {A} (p q : A -> bool) l :
  (length (List.filter p (List.filter q l)) <= length (List.filter p l))%nat.
Proof.
  induction l as [|a l IH]; simpl; [lia|].
  destruct (q a), (p a) eqn:Ep; simpl; rewrite ?Ep; simpl; lia.
Qed.

Lemma filter_filter_lt {A} (p q : A -> bool) l x :
  In x l -> p x = true -> q x = false ->
  (length (List.filter p (List.filter q l)) < length (List.filter p l))%nat.
Proof.
  intros Hin Hp Hq. induction l as [|a l IH]; [destruct Hin|].
  destruct Hin as [-> | Hin]; simpl.
  - rewrite Hq, Hp. simpl. pose proof (filter_filter_le p q l). lia.
  - specialize (IH Hin).
    destruct (q a), (p a) eqn:Ep; simpl; rewrite ?Ep; simpl; lia.
Qed.

Lemma snoc_not_nil {A} (l : list A) x : l ++ [x] <> [].
Proof. destruct l; discriminate. Qed.

Lemma earliest_nonempty l : l <> [] -> exists t, earliest l = Some t.
Proof.
  destruct l as [|a l]; [congruence|]. intros _. simpl.
  destruct (earliest l) as [t'|]; [|eauto].
  destruct (due t' <? due a); eauto.
Qed.

Lemma still_pending_refl s : still_pending s s.
Proof. exact (fun H => H). Qed.

Lemma still_pending_trans s1 s2 s3 :
  still_pending s1 s2 -> still_pending s2 s3 -> still_pending s1 s3.
Proof. unfold still_pending. auto. Qed.

Lemma keeps_pending_request c : keeps still_pending (request c).
Proof.
  intros s. unfold request.
  destruct (faults (world s)) as [|[] fs]; exact (fun H => H).
Qed.

Lemma keeps_pending_setTimeout a d :
  keeps still_pending (QrScanner.setTimeout a d).
Proof. intros s _. apply snoc_not_nil. Qed.

Lemma keeps_pending_modify f :
  (forall s, pending (rt (f s)) = pending (rt s)) ->
  keeps still_pending (modify f).
Proof. intros H s. unfold still_pending. cbn. rewrite H. auto. Qed.

Ltac pending_prim :=
  first
    [ apply keeps_pending_request
    | apply keeps_pending_setTimeout
    | solve [apply keeps_pending_modify; intros ?; reflexivity]
    | progress unfold
        QrScanner.handleScan,
        QrScanner.getParticipantInfo, QrScanner.play, QrScanner.setScanning,
        QrScanner.setError,
        QrScanner.setConfirmModalOpen, QrScanner.setScannedParticipant,
        QrScanner.setCurrentActivity, QrScannerPage.getCurrentActivity,
        getParticipantByQrCode, getParticipantCurrentActivity ].

(** After a camera read a timer is pending. *)
Lemma scan_leaves_timer data s :
  pending (rt (step (ev_scan data) s)) <> [].
Proof.
  unfold step, handler, QrScanner.handleScan.
  destruct (resetIdleTimer_result s) as (s1 & E1 & _).
  assert (pending (rt s1) <> []) as Hs1.
  { apply (f_equal snd) in E1. cbn [snd] in E1. subst s1.
    destruct s as [w [nw nt pd al sd] pg [sc sk er cm sp ca it]].
    destruct it; js_eval; apply snoc_not_nil. }
  rewrite (bind_ok _ _ _ _ _ E1).
  match goal with
  | |- pending (rt (snd (?m s1))) <> [] =>
      assert (keeps still_pending m) as Hk
        by keeps_walk still_pending still_pending_refl still_pending_trans
             pending_prim;
      apply Hk, Hs1
  end.
Qed.

(** Every event leaves the scanner decoding or a timer on its way. *)
Lemma recovering_step e s : recovering s -> recovering (step e s).
Proof.
  intros Hr. destruct e.
  - right. apply scan_leaves_timer.
  - right. destruct s as [w [nw nt pd al sd] pg [sc sk er cm sp ca it]].
    destruct it; js_eval; apply snoc_not_nil.
  - destruct (scannedParticipant (comp s)) as [p|] eqn:Hp.
    + destruct (handleConfirm_state s p Hp) as (w' & al' & pg' & ->).
      right. apply snoc_not_nil.
    + rewrite (confirm_without_participant s Hp). exact Hr.
  - right. destruct s as [w [nw nt pd al sd] pg [sc sk er cm sp ca it]].
    js_eval. apply snoc_not_nil.
  - right. destruct s as [w [nw nt pd al sd] pg [sc sk er cm sp ca it]].
    destruct it; js_eval; apply snoc_not_nil.
  - destruct s as [w [nw nt pd al sd] pg [sc sk er cm sp ca it]].
    js_eval. destruct (earliest pd) as [t|]; [|exact Hr].
    right. destruct (action t); js_eval; destruct it; js_eval;
      apply snoc_not_nil.
  - exact Hr.
Qed.

Lemma recovering_run es s : recovering s -> recovering (run es s).
Proof.
  revert s. induction es as [|e es IH]; intros s H; [exact H|].
  apply (IH (step e s)), recovering_step, H.
Qed.

(** The timer that fires re-arms the scanner, or it rebuilds the scanner
    and leaves fewer timers that are yet to rebuild it. *)
Lemma timeout_progress s t :
  earliest (pending (rt s)) = Some t ->
  let s' := step ev_timeout s in
  scanning (comp s') = true \/
  (pending (rt s') <> [] /\ (busy s' < busy s)%nat).
Proof.
  intros He. pose proof (earliest_In _ _ He) as Hin.
  destruct s as [w [nw nt pd al sd] pg [sc sk er cm sp ca it]].
  unfold busy. cbn [rt pending] in *. cbv zeta.
  remember (step ev_timeout _) as s' eqn:E.
  js_eval_in E. rewrite He in E.
  assert (forall h,
            (length (List.filter (fun t => negb (is_rearm t))
                       (List.filter (fun t' => negb (tid t' =? h)%positive)
                          (List.filter
                             (fun t' => negb (tid t' =? tid t)%positive) pd)))
             <= length (List.filter (fun t => negb (is_rearm t))
                          (List.filter
                             (fun t' => negb (tid t' =? tid t)%positive) pd)))
            %nat) as Hle by (intros h; apply filter_filter_le).
  destruct (action t) eqn:Ea;
    [ | left; js_eval_in E; destruct it; js_eval_in E; subst s'; reflexivity
      | | | | | | | ];
    right; js_eval_in E; destruct it as [h|]; js_eval_in E; subst s';
    cbn [rt pending]; (split; [apply snoc_not_nil|]);
    rewrite List.filter_app, length_app; cbn [List.filter is_rearm action negb
      length];
    (assert (length (List.filter (fun t => negb (is_rearm t))
                       (List.filter
                          (fun t' => negb (tid t' =? tid t)%positive) pd))
             < length (List.filter (fun t => negb (is_rearm t)) pd))%nat
       as Hlt
       by (apply (filter_filter_lt _ _ pd t Hin);
           [unfold is_rearm; rewrite Ea; reflexivity
           | rewrite Pos.eqb_refl; reflexivity]));
    try specialize (Hle h); lia.
Qed.

Lemma run_timeouts_succ n s :
  run (repeat ev_timeout (S n)) s = run (repeat ev_timeout n) (step ev_timeout s).
Proof. reflexivity. Qed.

Lemma rearms_by_itself k s :
  (busy s <= k)%nat -> recovering s ->
  exists n, (n <= S k)%nat /\
            scanning (comp (run (repeat ev_timeout n) s)) = true.
Proof.
  revert s. induction k as [|k IH]; intros s Hk Hr.
  - destruct (scanning (comp s)) eqn:Hsc; [exists 0%nat; split; [lia|exact Hsc]|].
    destruct Hr as [Hr | Hr]; [congruence|].
    destruct (earliest_nonempty _ Hr) as (t & He).
    destruct (timeout_progress s t He) as [H | [_ H]]; [|lia].
    exists 1%nat. split; [lia | exact H].
  - destruct (scanning (comp s)) eqn:Hsc; [exists 0%nat; split; [lia|exact Hsc]|].
    destruct Hr as [Hr | Hr]; [congruence|].
    destruct (earliest_nonempty _ Hr) as (t & He).
    destruct (timeout_progress s t He) as [H | [Hne H]].
    + exists 1%nat. split; [lia | exact H].
    + destruct (IH (step ev_timeout s)) as (n & Hn & Hs);
        [lia | right; exact Hne |].
      exists (S n). split; [lia|]. rewrite run_timeouts_succ. exact Hs.
Qed.

(** X26. The scanner cannot get stuck.  From every state it can reach from its
    mount, whatever the events and whatever the store answers, letting the
    pending timers fire turns decoding on again: at most one firing per
    pending timer that is not itself a re-arm, and one more.  The timers do
    this without contacting the store. *)
Theorem scanner_always_comes_back es w pg :
  let s := run es (mounted w pg) in
  exists n, (n <= busy s + 1)%nat /\
    let s' := run (repeat ev_timeout n) s in
    scanning (comp s') = true /\ world s' = world s.
Proof.
  cbv zeta.
  assert (recovering (run es (mounted w pg))) as Hr
    by (apply recovering_run; left; reflexivity).
  destruct (rearms_by_itself _ _ (le_n _) Hr) as (n & Hn & Hs).
  exists n. split; [lia|]. split; [exact Hs|].
  apply quiet_run_world. clear. induction n; constructor; [exact I|].
  assumption.
Qed.
